(** * Persona / Personal storage layer and the message-font store

    A shallow embedding of
    - [src/lib/models/personal-model.ts] and the Persona model,
    - [src/lib/data/roleplay/personal-operation.ts] (both the Personal and
      the Persona copy of the CRUD layer),
    - [loadGoogleFont] of [src/contexts/MessageFontStore.ts],
    followed by the properties the specification states about them.

    Conventions.
    - A TypeScript [string] used as an identifier or a timestamp is a Rocq
      [string]; only equality ([===]) and emptiness (truthiness) of such
      strings are ever observed by the code.
    - [string | null] and [string | undefined] are [option string].
    - [Record<string, string>] is a [gmap string string]; properties a
      JavaScript object inherits from its prototype are outside the model.
    - [async] functions run to completion one at a time: an operation is a
      state transformer over the persisted files.
    - Every reading of the wall clock or of the random generator is answered
      by an oracle indexed by the number of readings made so far, so that the
      results hold for every sequence of readings. *)

From stdpp Require Import gmap strings list.

Set Default Proof Using "Type".

(** ** JavaScript truthiness of the values the code tests *)

(** [if (s)] for [s : string]: every string but the empty one is truthy. *)
Definition truthy_string (s : string) : bool :=
  if decide (s = EmptyString) then false else true.

(** [if (x)] for [x : string | null | undefined]. *)
Definition truthy (x : option string) : bool :=
  match x with
  | Some s => truthy_string s
  | None => false
  end.

(** [x || null] for [x : string | undefined]. *)
Definition or_null (x : option string) : option string :=
  if truthy x then x else None.

(** ** The data model *)

(** [interface Personal] of personal-model.ts. *)
Record Personal := mkPersonal {
  personal_id : string;
  personal_name : string;
  personal_description : string;
  personal_personality : string;
  personal_avatar : option string;
  personal_isDefault : bool;
  personal_createdAt : string;
  personal_updatedAt : string
}.

(** [interface Persona] of the Persona model: no [personality] field. *)
Record Persona := mkPersona {
  persona_id : string;
  persona_name : string;
  persona_description : string;
  persona_avatar : option string;
  persona_isDefault : bool;
  persona_createdAt : string;
  persona_updatedAt : string
}.

(** [interface PersonalSettings] and [interface PersonaSettings] have the
    same two fields up to their names ([defaultPersonalId] /
    [defaultPersonaId], [characterPersonalMap] / [characterPersonaMap]). *)
Record Settings := mkSettings {
  defaultEntityId : option string;
  characterEntityMap : gmap string string
}.

(** The three nondeterministic readings the layer makes. *)
Record Oracle := mkOracle {
  toISOString : nat → string;   (* new Date().toISOString() *)
  dateNow : nat → string;       (* `${Date.now()}` *)
  randomSuffix : nat → string   (* Math.random().toString(36).substring(2, 9) *)
}.

(** What the two copies of personal-operation.ts need from their entity:
    field reads, the three field writes they perform, and the two
    constructors of the model file. *)
Class Entity (E : Type) := {
  ent_id : E → string;
  ent_name : E → string;
  ent_isDefault : E → bool;
  ent_updatedAt : E → string;
  set_name : string → E → E;
  set_isDefault : bool → E → E;
  set_updatedAt : string → E → E;
  createEmpty : string → string → string → E;
  createDefault : string → string → string → E;
  id_set_name n e : ent_id (set_name n e) = ent_id e;
  id_set_isDefault b e : ent_id (set_isDefault b e) = ent_id e;
  id_set_updatedAt t e : ent_id (set_updatedAt t e) = ent_id e;
  isDefault_set_name n e : ent_isDefault (set_name n e) = ent_isDefault e;
  isDefault_set_isDefault b e : ent_isDefault (set_isDefault b e) = b;
  isDefault_set_updatedAt t e :
    ent_isDefault (set_updatedAt t e) = ent_isDefault e;
  updatedAt_set_isDefault b e :
    ent_updatedAt (set_isDefault b e) = ent_updatedAt e;
  updatedAt_set_updatedAt t e : ent_updatedAt (set_updatedAt t e) = t;
  isDefault_createEmpty now ms rnd :
    ent_isDefault (createEmpty now ms rnd) = false;
  isDefault_createDefault now ms user :
    ent_isDefault (createDefault now ms user) = true
}.

(** [createEmptyPersonal]: [now] is [new Date().toISOString()], [ms] is
    [Date.now()] and [rnd] the random suffix. *)
Definition createEmptyPersonal (now ms rnd : string) : Personal :=
  {| personal_id := "personal_" +:+ ms +:+ "_" +:+ rnd;
     personal_name := EmptyString;
     personal_description := EmptyString;
     personal_personality := EmptyString;
     personal_avatar := None;
     personal_isDefault := false;
     personal_createdAt := now;
     personal_updatedAt := now |}.

(** [createDefaultPersonal(username)]; [username || "User"]. *)
Definition createDefaultPersonal (now ms username : string) : Personal :=
  {| personal_id := "personal_default_" +:+ ms;
     personal_name := if truthy_string username then username else "User";
     personal_description := EmptyString;
     personal_personality := EmptyString;
     personal_avatar := None;
     personal_isDefault := true;
     personal_createdAt := now;
     personal_updatedAt := now |}.

Definition createEmptyPersona (now ms rnd : string) : Persona :=
  {| persona_id := "persona_" +:+ ms +:+ "_" +:+ rnd;
     persona_name := EmptyString;
     persona_description := EmptyString;
     persona_avatar := None;
     persona_isDefault := false;
     persona_createdAt := now;
     persona_updatedAt := now |}.

Definition createDefaultPersona (now ms username : string) : Persona :=
  {| persona_id := "persona_default_" +:+ ms;
     persona_name := if truthy_string username then username else "User";
     persona_description := EmptyString;
     persona_avatar := None;
     persona_isDefault := true;
     persona_createdAt := now;
     persona_updatedAt := now |}.

#[export] Instance Personal_Entity : Entity Personal := {|
  ent_id := personal_id;
  ent_name := personal_name;
  ent_isDefault := personal_isDefault;
  ent_updatedAt := personal_updatedAt;
  set_name n p :=
    mkPersonal (personal_id p) n (personal_description p)
      (personal_personality p) (personal_avatar p) (personal_isDefault p)
      (personal_createdAt p) (personal_updatedAt p);
  set_isDefault b p :=
    mkPersonal (personal_id p) (personal_name p) (personal_description p)
      (personal_personality p) (personal_avatar p) b
      (personal_createdAt p) (personal_updatedAt p);
  set_updatedAt t p :=
    mkPersonal (personal_id p) (personal_name p) (personal_description p)
      (personal_personality p) (personal_avatar p) (personal_isDefault p)
      (personal_createdAt p) t;
  createEmpty := createEmptyPersonal;
  createDefault := createDefaultPersonal;
  id_set_name _ _ := eq_refl;
  id_set_isDefault _ _ := eq_refl;
  id_set_updatedAt _ _ := eq_refl;
  isDefault_set_name _ _ := eq_refl;
  isDefault_set_isDefault _ _ := eq_refl;
  isDefault_set_updatedAt _ _ := eq_refl;
  updatedAt_set_isDefault _ _ := eq_refl;
  updatedAt_set_updatedAt _ _ := eq_refl;
  isDefault_createEmpty _ _ _ := eq_refl;
  isDefault_createDefault _ _ _ := eq_refl
|}.

#[export] Instance Persona_Entity : Entity Persona := {|
  ent_id := persona_id;
  ent_name := persona_name;
  ent_isDefault := persona_isDefault;
  ent_updatedAt := persona_updatedAt;
  set_name n p :=
    mkPersona (persona_id p) n (persona_description p) (persona_avatar p)
      (persona_isDefault p) (persona_createdAt p) (persona_updatedAt p);
  set_isDefault b p :=
    mkPersona (persona_id p) (persona_name p) (persona_description p)
      (persona_avatar p) b (persona_createdAt p) (persona_updatedAt p);
  set_updatedAt t p :=
    mkPersona (persona_id p) (persona_name p) (persona_description p)
      (persona_avatar p) (persona_isDefault p) (persona_createdAt p) t;
  createEmpty := createEmptyPersona;
  createDefault := createDefaultPersona;
  id_set_name _ _ := eq_refl;
  id_set_isDefault _ _ := eq_refl;
  id_set_updatedAt _ _ := eq_refl;
  isDefault_set_name _ _ := eq_refl;
  isDefault_set_isDefault _ _ := eq_refl;
  isDefault_set_updatedAt _ _ := eq_refl;
  updatedAt_set_isDefault _ _ := eq_refl;
  updatedAt_set_updatedAt _ _ := eq_refl;
  isDefault_createEmpty _ _ _ := eq_refl;
  isDefault_createDefault _ _ _ := eq_refl
|}.

(** ** The persisted files and the operation monad *)

(** Modelled from the spec: [readData] and [writeData] of
    [@/lib/data/local-storage] are not part of the sources at hand.  The
    specification describes them as a generic [readData(key)] /
    [writeData(key, value)] pair over persisted collections keyed by fixed
    identifiers, each operation re-reading and then re-writing the full
    collection.  A world holds the collection stored under the entity key
    ([PERSONAL_FILE] or [PERSONA_FILE]) and the one stored under the settings
    key; reading returns what was last written, by value. *)
Record World (E : Type) := mkWorld {
  entityFile : list E;
  settingsFile : list Settings;
  readings : nat   (* oracle readings made so far *)
}.
Arguments mkWorld {E} _ _ _.
Arguments entityFile {E} _.
Arguments settingsFile {E} _.
Arguments readings {E} _.

Definition M (E A : Type) : Type := World E → A * World E.

Definition ret {E A} (a : A) : M E A := λ w, (a, w).

Definition bind {E A B} (m : M E A) (k : A → M E B) : M E B :=
  λ w, let '(a, w') := m w in k a w'.

Notation "'let!' x ':=' m 'in' k" := (bind m (λ x, k))
  (at level 10, x binder, m at level 100, k at level 200,
   format "'[v' 'let!'  x  ':='  m  'in' '/' k ']'").

(** The state an operation leaves, and the value it resolves to. *)
Definition exec {E A} (m : M E A) (w : World E) : World E := (m w).2.
Definition eval {E A} (m : M E A) (w : World E) : A := (m w).1.

(** Modelled from the spec: [readData(key)] for the entity key. *)
Definition readEntityFile {E} : M E (list E) := λ w, (entityFile w, w).

(** Modelled from the spec: [writeData(key, value)] for the entity key. *)
Definition writeEntityFile {E} (l : list E) : M E unit :=
  λ w, (tt, mkWorld l (settingsFile w) (readings w)).

(** Modelled from the spec: [readData(key)] for the settings key. *)
Definition readSettingsFile {E} : M E (list Settings) :=
  λ w, (settingsFile w, w).

(** Modelled from the spec: [writeData(key, value)] for the settings key. *)
Definition writeSettingsFile {E} (l : list Settings) : M E unit :=
  λ w, (tt, mkWorld (entityFile w) l (readings w)).

(** One oracle reading: the answer is indexed by the readings so far. *)
Definition reading {E} (f : nat → string) : M E string :=
  λ w, (f (readings w), mkWorld (entityFile w) (settingsFile w) (S (readings w))).

(** [arr.forEach(p => ...)] whose callback mutates [p] and may read the
    clock: the elements are visited from left to right. *)
Fixpoint forEach {E} (f : E → M E E) (l : list E) : M E (list E) :=
  match l with
  | [] => ret []
  | p :: l' =>
      let! p' := f p in
      let! l'' := forEach f l' in
      ret (p' :: l'')
  end.

(** [filtered[0].isDefault = true] on a non-empty array. *)
Definition set_first_default `{Entity E} (l : list E) : list E :=
  match l with
  | [] => []
  | p :: l' => set_isDefault true p :: l'
  end.

(** [Object.keys(map)] *)
Definition Object_keys (m : gmap string string) : list string :=
  (map_to_list m).*1.

(** The loop of [deletePersonal] over the keys of the character map:
    [if (map[charId] === id) delete map[charId]]. *)
Definition prune_character_map (id : string) (m : gmap string string)
  : gmap string string :=
  foldl (λ acc charId,
           if decide (acc !! charId = Some id) then delete charId acc else acc)
        m (Object_keys m).

Section Operations.
Context {E : Type} {entity : Entity E}.
Variable env : Oracle.

(** [new Date().toISOString()] *)
Definition newDateISO : M E string := reading (toISOString env).

(** [createEmptyPersonal()] / [createEmptyPersona()]: three readings, in
    the order the constructor makes them. *)
Definition createEmptyEntity : M E E :=
  let! now := reading (toISOString env) in
  let! ms := reading (dateNow env) in
  let! rnd := reading (randomSuffix env) in
  ret (createEmpty now ms rnd).

(** [createDefaultPersonal(username)] / [createDefaultPersona(username)] *)
Definition createDefaultEntity (username : string) : M E E :=
  let! now := reading (toISOString env) in
  let! ms := reading (dateNow env) in
  ret (createDefault now ms username).

(** [getAllPersonals] / [getAllPersonas] *)
Definition getAllEntities : M E (list E) := readEntityFile.

(** [getPersonalById] / [getPersonaById]:
    [personals.find((p) => p.id === id) || null] *)
Definition getEntityById (id : string) : M E (option E) :=
  let! personals := getAllEntities in
  ret (snd <$> list_find (λ p, ent_id p = id) personals).

(** [personals.find((p) => p.isDefault) || personals[0] || null] *)
Definition find_default (personals : list E) : option E :=
  match list_find (λ p, ent_isDefault p = true) personals with
  | Some (_, p) => Some p
  | None => head personals
  end.

(** [getDefaultPersonal] / [getDefaultPersona] *)
Definition getDefaultEntity : M E (option E) :=
  let! personals := getAllEntities in
  ret (find_default personals).

(** The [forEach] of [savePersonal]: clear the flag of every entity whose
    id differs from the saved one. *)
Definition clear_other_defaults (personal : E) (personals : list E) : list E :=
  map (λ p, if decide (ent_id p ≠ ent_id personal)
            then set_isDefault false p else p) personals.

(** [if (index >= 0) personals[index] = personal; else
    personals.push(personal)], for the result [index] of [findIndex]. *)
Definition put_at (index : option (nat * E)) (personal : E)
    (personals : list E) : list E :=
  match index with
  | Some (i, _) => <[i := personal]> personals
  | None => personals ++ [personal]
  end.

(** [savePersonal] / [savePersona].  The function mutates its argument
    ([personal.updatedAt = ...]); the entity as the call leaves it is the
    value returned here. *)
Definition saveEntity (personal : E) : M E E :=
  let! personals := getAllEntities in
  let index := list_find (λ p, ent_id p = ent_id personal) personals in
  let! now := newDateISO in
  let personal := set_updatedAt now personal in
  let personals := put_at index personal personals in
  let personals :=
    if ent_isDefault personal
    then clear_other_defaults personal personals
    else personals in
  let! _ := writeEntityFile personals in
  ret personal.

(** [getPersonalSettings] / [getPersonaSettings] *)
Definition getEntitySettings : M E Settings :=
  let! settings := readSettingsFile in
  ret (match settings with
       | [] => {| defaultEntityId := None; characterEntityMap := ∅ |}
       | s :: _ => s
       end).

(** [savePersonalSettings] / [savePersonaSettings] *)
Definition saveEntitySettings (settings : Settings) : M E unit :=
  writeSettingsFile [settings].

(** The entity part of [deletePersonal]: the array written to the file. *)
Definition delete_filtered (id : string) (personals : list E) : list E :=
  let filtered := filter (λ p, ent_id p ≠ id) personals in
  if (0 <? length filtered) && negb (existsb ent_isDefault filtered)
  then set_first_default filtered
  else filtered.

(** The settings part of [deletePersonal]. *)
Definition delete_settings (id : string) (filtered : list E)
    (settings : Settings) : Settings :=
  let default :=
    if decide (defaultEntityId settings = Some id)
    then or_null (ent_id <$> head filtered)
    else defaultEntityId settings in
  {| defaultEntityId := default;
     characterEntityMap := prune_character_map id (characterEntityMap settings) |}.

(** [deletePersonal] / [deletePersona] *)
Definition deleteEntity (id : string) : M E unit :=
  let! personals := getAllEntities in
  let filtered := delete_filtered id personals in
  let! _ := writeEntityFile filtered in
  let! settings := getEntitySettings in
  saveEntitySettings (delete_settings id filtered settings).

(** [setDefaultPersonal] / [setDefaultPersona] *)
Definition setDefaultEntity (id : string) : M E unit :=
  let! personals := getAllEntities in
  let! personals :=
    forEach (λ p,
               let p := set_isDefault (bool_decide (ent_id p = id)) p in
               let! now := newDateISO in
               ret (set_updatedAt now p)) personals in
  let! _ := writeEntityFile personals in
  let! settings := getEntitySettings in
  saveEntitySettings
    {| defaultEntityId := Some id;
       characterEntityMap := characterEntityMap settings |}.

(** [getPersonalForCharacter] / [getPersonaForCharacter] *)
Definition getEntityForCharacter (characterId : string) : M E (option E) :=
  let! settings := getEntitySettings in
  let personalId := characterEntityMap settings !! characterId in
  match personalId with
  | Some i => if truthy_string i then getEntityById i else getDefaultEntity
  | None => getDefaultEntity
  end.

(** [setPersonalForCharacter] / [setPersonaForCharacter] *)
Definition setEntityForCharacter (characterId : string)
    (personalId : option string) : M E unit :=
  let! settings := getEntitySettings in
  let map := characterEntityMap settings in
  let map :=
    match personalId with
    | Some i =>
        if truthy_string i then <[characterId := i]> map
        else delete characterId map
    | None => delete characterId map
    end in
  saveEntitySettings
    {| defaultEntityId := defaultEntityId settings;
       characterEntityMap := map |}.

(** [initializeDefaultPersonal] / [initializeDefaultPersona] *)
Definition initializeDefaultEntity (username : string) : M E (option E) :=
  let! personals := getAllEntities in
  match personals with
  | [] =>
      let! defaultPersonal := createDefaultEntity username in
      let! defaultPersonal := saveEntity defaultPersonal in
      let! settings := getEntitySettings in
      let! _ := saveEntitySettings
                  {| defaultEntityId := Some (ent_id defaultPersonal);
                     characterEntityMap := characterEntityMap settings |} in
      ret (Some defaultPersonal)
  | _ :: _ => ret (find_default personals)
  end.

(** [createNewPersonal] / [createNewPersona] *)
Definition createNewEntity (name : string) : M E E :=
  let! personal := createEmptyEntity in
  let personal := set_name name personal in
  saveEntity personal.

(** What [save(e)] does to an entity [q] it does not replace. *)
Definition other_after_save (e q : E) : E :=
  if ent_isDefault e && bool_decide (ent_id q ≠ ent_id e)
  then set_isDefault false q else q.

(** The number of entities flagged default. *)
Definition count_default (personals : list E) : nat :=
  length (filter (λ p, ent_isDefault p = true) personals).
End Operations.

(** The two copies of the layer. *)
Definition savePersonal := saveEntity (E := Personal).
Definition savePersona := saveEntity (E := Persona).
Definition deletePersonal := deleteEntity (E := Personal).
Definition deletePersona := deleteEntity (E := Persona).
Definition setDefaultPersonal := setDefaultEntity (E := Personal).
Definition setDefaultPersona := setDefaultEntity (E := Persona).
Definition getDefaultPersonal := getDefaultEntity (E := Personal).
Definition getDefaultPersona := getDefaultEntity (E := Persona).
Definition getPersonaById := getEntityById (E := Persona).
Definition getPersonalForCharacter := getEntityForCharacter (E := Personal).
Definition getPersonaForCharacter := getEntityForCharacter (E := Persona).
Definition setPersonalForCharacter := setEntityForCharacter (E := Personal).
Definition createNewPersonal := createNewEntity (E := Personal).
Definition createNewPersona := createNewEntity (E := Persona).

(** The [name] field is independent of the two other writes the layer
    makes. *)
Class EntityNameLaws (E : Type) `{Entity E} : Prop := {
  name_set_name n (e : E) : ent_name (set_name n e) = n;
  name_set_updatedAt t (e : E) : ent_name (set_updatedAt t e) = ent_name e
}.

#[export] Instance Personal_EntityNameLaws : EntityNameLaws Personal.
Proof. by split. Qed.

#[export] Instance Persona_EntityNameLaws : EntityNameLaws Persona.
Proof. by split. Qed.

(** ** Sequences of exported operations *)

(** One call of an exported, store-changing function of the layer. *)
Inductive Op (E : Type) : Type :=
  | OpSave (e : E)
  | OpDelete (id : string)
  | OpSetDefault (id : string)
  | OpSaveSettings (settings : Settings)
  | OpSetForCharacter (characterId : string) (id : option string)
  | OpInitializeDefault (username : string)
  | OpCreateNew (name : string).
Arguments OpSave {E} _.
Arguments OpDelete {E} _.
Arguments OpSetDefault {E} _.
Arguments OpSaveSettings {E} _.
Arguments OpSetForCharacter {E} _ _.
Arguments OpInitializeDefault {E} _.
Arguments OpCreateNew {E} _.

(** The store a call leaves. *)
Definition run_op {E} `{Entity E} (env : Oracle) (op : Op E) (w : World E)
  : World E :=
  match op with
  | OpSave e => exec (saveEntity env e) w
  | OpDelete id => exec (deleteEntity id) w
  | OpSetDefault id => exec (setDefaultEntity env id) w
  | OpSaveSettings s => exec (saveEntitySettings s) w
  | OpSetForCharacter c id => exec (setEntityForCharacter c id) w
  | OpInitializeDefault username => exec (initializeDefaultEntity env username) w
  | OpCreateNew name => exec (createNewEntity env name) w
  end.

(** The store after a sequence of calls, first call first. *)
Definition run_ops {E} `{Entity E} (env : Oracle) (ops : list (Op E))
    (w : World E) : World E :=
  foldl (λ w op, run_op env op w) w ops.

(** Pairwise distinct ids and at most one entity flagged default. *)
Definition single_default {E} `{Entity E} (personals : list E) : Prop :=
  NoDup (ent_id <$> personals) ∧ count_default personals ≤ 1.

(** Every id the settings hold (the default id, the values of the
    character map) is the id of an entity of the collection. *)
Definition references_resolve {E} `{Entity E} (w : World E) : Prop :=
  let settings := eval getEntitySettings w in
  (∀ i, defaultEntityId settings = Some i →
        ∃ p, p ∈ entityFile w ∧ ent_id p = i) ∧
  (∀ c i, characterEntityMap settings !! c = Some i →
          ∃ p, p ∈ entityFile w ∧ ent_id p = i).

(** ** The persona part of [PresetNodeTools.buildPromptFramework] *)

Inductive Language := zh | en.

Definition newline : string := String (Ascii.ascii_of_nat 10) EmptyString.

(** [a || b] for strings that may be [undefined]. *)
Definition or_else (a b : option string) : option string :=
  if truthy a then a else b.

(** [const effectiveUsername = persona?.name || username] *)
Definition effectiveUsername (persona : option Persona)
    (username : option string) : option string :=
  or_else (persona_name <$> persona) username.

(** [persona.name || effectiveUsername || "User"], the name written into
    the section. *)
Definition sectionUserName (persona : Persona) (username : option string)
  : string :=
  default "User"
    (or_else (or_else (Some (persona_name persona))
                (effectiveUsername (Some persona) username))
       (Some "User")).

(** [personaSection], for a persona with a description. *)
Definition personaSection (language : Language) (persona : Persona)
    (username : option string) : string :=
  match language with
  | zh =>
      newline +:+ newline +:+ "【用户信息】" +:+ newline +:+ "用户名称: "
      +:+ sectionUserName persona username +:+ newline +:+ "用户描述: "
      +:+ persona_description persona +:+ newline +:+ newline
      +:+ "请记住用户的外貌、背景和性格特征，并在互动中自然地体现对用户的认知。"
  | en =>
      newline +:+ newline +:+ "【User Information】" +:+ newline
      +:+ "User Name: " +:+ sectionUserName persona username +:+ newline
      +:+ "User Description: " +:+ persona_description persona +:+ newline
      +:+ newline
      +:+ "Remember the user's appearance, background, and personality traits. Naturally incorporate your awareness of the user in your interactions."
  end.

(** [finalSystemMessage]: the assembled system message, followed by the
    persona section when the persona has a description
    ([if (persona?.description)]). *)
Definition finalSystemMessage (language : Language) (persona : option Persona)
    (username : option string) (systemMessage : string) : string :=
  match persona with
  | Some p =>
      if truthy_string (persona_description p)
      then systemMessage +:+ personaSection language p username
      else systemMessage
  | None => systemMessage
  end.

(** ** The message-font store: [loadGoogleFont] *)

Module MessageFontStore.

(** A JavaScript string as its sequence of UTF-16 code units: the regular
    expression of [loadGoogleFont] classifies code units. *)
Definition jsstring : Type := list N.

(** A string literal of the source (ASCII only). *)
Definition lit (s : string) : jsstring :=
  Ascii.N_of_ascii <$> String.list_ascii_of_string s.

(** The class [\s] of a non-unicode-mode regular expression: the
    ECMAScript WhiteSpace and LineTerminator code points. *)
Definition isWhiteSpace (c : N) : bool :=
  ((9 <=? c) && (c <=? 13) ||
   (c =? 32) || (c =? 160) || (c =? 5760) ||
   (8192 <=? c) && (c <=? 8202) ||
   (c =? 8232) || (c =? 8233) || (c =? 8239) || (c =? 8287) ||
   (c =? 12288) || (c =? 65279))%N.

(** [s.replace(/\s+/g, "+")]: every maximal run of white space becomes one
    plus sign.  [inRun] tells that the previous code unit was white space. *)
Fixpoint replace_runs (inRun : bool) (s : jsstring) : jsstring :=
  match s with
  | [] => []
  | c :: s' =>
      if isWhiteSpace c
      then (if inRun then replace_runs true s'
            else lit "+" ++ replace_runs true s')
      else c :: replace_runs false s'
  end.

Definition replace_whitespace (s : jsstring) : jsstring :=
  replace_runs false s.

(** The attributes of a DOM element that the function sets or reads. *)
Record Element := mkElement {
  tagName : jsstring;
  el_id : jsstring;
  el_href : jsstring;
  el_rel : jsstring
}.

#[export] Instance Element_eq_dec : EqDecision Element.
Proof. solve_decision. Defined.

(** The document: the children of [document.head], in order, and the
    elements of the rest of the tree. *)
Record Document := mkDocument {
  head_children : list Element;
  elsewhere : list Element
}.

(** [document.createElement(tag)] *)
Definition createElement (tag : jsstring) : Element :=
  mkElement tag [] [] [].

(** [document.getElementById(id)] *)
Definition getElementById (d : Document) (id : jsstring) : option Element :=
  List.find (λ e, bool_decide (el_id e = id))
            (head_children d ++ elsewhere d).

(** [document.head.appendChild(e)] *)
Definition head_appendChild (e : Element) (d : Document) : Document :=
  mkDocument (head_children d ++ [e]) (elsewhere d).

Section Store.
(** JavaScript numbers (the font sizes) are never inspected here. *)
Variable number : Type.

Record MessageFontSettings := mkMessageFontSettings {
  normalFont : jsstring;
  normalFontSize : number;
  dialogueFont : jsstring;
  dialogueFontSize : number;
  italicFont : jsstring;
  italicFontSize : number;
  codeFont : jsstring;
  codeFontSize : number
}.

(** The state fields of [interface MessageFontStore]. *)
Record Store := mkStore {
  fontSettings : MessageFontSettings;
  customFonts : list jsstring;
  loadedFonts : gset jsstring
}.

(** What [loadGoogleFont] reads and writes: whether [window] is defined,
    the document, and the store behind [get] and [set].  The [persist]
    middleware saves [fontSettings] and [customFonts] only, which
    [loadGoogleFont] never assigns. *)
Record Runtime := mkRuntime {
  window_defined : bool;
  document : Document;
  store : Store
}.

(** The link element [loadGoogleFont] builds for a font name. *)
Definition font_link (fontName : jsstring) : Element :=
  let formattedName := replace_whitespace fontName in
  let link := createElement (lit "link") in
  let link :=
    mkElement (tagName link) (el_id link)
      (lit "https://fonts.googleapis.com/css2?family=" ++ formattedName
         ++ lit ":wght@400;500;600;700&display=swap")
      (el_rel link) in
  let link :=
    mkElement (tagName link) (el_id link) (el_href link)
      (lit "stylesheet") in
  mkElement (tagName link) (lit "google-font-" ++ formattedName)
    (el_href link) (el_rel link).

(** [loadGoogleFont] *)
Definition loadGoogleFont (fontName : jsstring) (r : Runtime) : Runtime :=
  if bool_decide (fontName = []) || negb (window_defined r) then r
  else
    let loaded := loadedFonts (store r) in
    if bool_decide (fontName ∈ loaded) then r
    else
      let link := font_link fontName in
      let doc :=
        match getElementById (document r) (el_id link) with
        | None => head_appendChild link (document r)
        | Some _ => document r
        end in
      let newLoadedFonts := loaded ∪ {[fontName]} in
      mkRuntime (window_defined r) doc
        (mkStore (fontSettings (store r)) (customFonts (store r))
           newLoadedFonts).

(** The stylesheet links for [fontName] among the children of the head. *)
Definition links_for (fontName : jsstring) (r : Runtime) : list Element :=
  filter (λ e, e = font_link fontName) (head_children (document r)).
End Store.

(** *** The other members of the store *)

(** [s.trimStart()]: the code units stripped are those of [\s]. *)
Fixpoint trimStart (s : jsstring) : jsstring :=
  match s with
  | [] => []
  | c :: s' => if isWhiteSpace c then trimStart s' else s
  end.

(** [s.trim()] *)
Definition trim (s : jsstring) : jsstring :=
  reverse (trimStart (reverse (trimStart s))).

(** An element of [POPULAR_GOOGLE_FONTS], and of the array
    [getAllAvailableFonts] returns: [isCustom] is an optional property. *)
Record FontOption := mkFontOption {
  fo_name : jsstring;
  fo_category : jsstring;
  fo_isCustom : option bool
}.

Definition popular (name category : string) : FontOption :=
  mkFontOption (lit name) (lit category) None.

Definition POPULAR_GOOGLE_FONTS : list FontOption :=
  [ popular "Lora" "serif";
    popular "Playfair Display" "serif";
    popular "Merriweather" "serif";
    popular "Crimson Text" "serif";
    popular "EB Garamond" "serif";
    popular "Cormorant Garamond" "serif";
    popular "Libre Baskerville" "serif";
    popular "Source Serif Pro" "serif";
    popular "Noto Serif" "serif";
    popular "Roboto" "sans-serif";
    popular "Open Sans" "sans-serif";
    popular "Lato" "sans-serif";
    popular "Montserrat" "sans-serif";
    popular "Poppins" "sans-serif";
    popular "Nunito" "sans-serif";
    popular "Raleway" "sans-serif";
    popular "Inter" "sans-serif";
    popular "Noto Sans" "sans-serif";
    popular "Source Sans Pro" "sans-serif";
    popular "Dancing Script" "cursive";
    popular "Pacifico" "cursive";
    popular "Great Vibes" "cursive";
    popular "Caveat" "cursive";
    popular "Satisfy" "cursive";
    popular "Fira Code" "monospace";
    popular "JetBrains Mono" "monospace";
    popular "Source Code Pro" "monospace";
    popular "Roboto Mono" "monospace";
    popular "IBM Plex Mono" "monospace" ].

(** The body of the [forEach] of [getAllAvailableFonts]. *)
Definition push_custom (fonts : list FontOption) (font : jsstring)
  : list FontOption :=
  if existsb (λ f, bool_decide (fo_name f = font)) fonts then fonts
  else fonts ++ [mkFontOption font (lit "custom") (Some true)].

(** [getAllAvailableFonts(customFonts)] *)
Definition getAllAvailableFonts (customFonts : list jsstring)
  : list FontOption :=
  foldl push_custom POPULAR_GOOGLE_FONTS customFonts.

Section StoreOperations.
Context {number : Type}.

(** The number an integer literal of the source denotes. *)
Variable literal : N → number.

(** [DEFAULT_FONT_SETTINGS] *)
Definition DEFAULT_FONT_SETTINGS : MessageFontSettings number :=
  mkMessageFontSettings number
    [] (literal 16) [] (literal 16) [] (literal 16) [] (literal 14).

(** [Partial<MessageFontSettings>]: a property is absent or carries a value
    of its type, as in every call of the sources ([{ [fontKey]: name }],
    [{ [sizeKey]: size }]). *)
Record PartialFontSettings := mkPartialFontSettings {
  p_normalFont : option jsstring;
  p_normalFontSize : option number;
  p_dialogueFont : option jsstring;
  p_dialogueFontSize : option number;
  p_italicFont : option jsstring;
  p_italicFontSize : option number;
  p_codeFont : option jsstring;
  p_codeFontSize : option number
}.

(** [{ ...fontSettings, ...settings }] *)
Definition spread (fontSettings : MessageFontSettings number)
    (settings : PartialFontSettings) : MessageFontSettings number :=
  mkMessageFontSettings number
    (default (normalFont _ fontSettings) (p_normalFont settings))
    (default (normalFontSize _ fontSettings) (p_normalFontSize settings))
    (default (dialogueFont _ fontSettings) (p_dialogueFont settings))
    (default (dialogueFontSize _ fontSettings) (p_dialogueFontSize settings))
    (default (italicFont _ fontSettings) (p_italicFont settings))
    (default (italicFontSize _ fontSettings) (p_italicFontSize settings))
    (default (codeFont _ fontSettings) (p_codeFont settings))
    (default (codeFontSize _ fontSettings) (p_codeFontSize settings)).

(** [set({ fontSettings: s })] *)
Definition set_fontSettings (s : MessageFontSettings number)
    (r : Runtime number) : Runtime number :=
  mkRuntime number (window_defined _ r) (document _ r)
    (mkStore number s (customFonts _ (store _ r)) (loadedFonts _ (store _ r))).

(** [set({ customFonts: l })] *)
Definition set_customFonts (l : list jsstring) (r : Runtime number)
  : Runtime number :=
  mkRuntime number (window_defined _ r) (document _ r)
    (mkStore number (fontSettings _ (store _ r)) l (loadedFonts _ (store _ r))).

(** [if (settings.xFont && settings.xFont !== fontSettings.xFont)
    loadGoogleFont(settings.xFont)] *)
Definition load_if_changed (new : option jsstring) (current : jsstring)
    (r : Runtime number) : Runtime number :=
  match new with
  | Some f =>
      if negb (bool_decide (f = [])) && negb (bool_decide (f = current))
      then loadGoogleFont number f r
      else r
  | None => r
  end.

(** [updateFontSettings] *)
Definition updateFontSettings (settings : PartialFontSettings)
    (r : Runtime number) : Runtime number :=
  let fontSettings := fontSettings _ (store _ r) in
  let newSettings := spread fontSettings settings in
  let r := load_if_changed (p_normalFont settings)
             (normalFont _ fontSettings) r in
  let r := load_if_changed (p_dialogueFont settings)
             (dialogueFont _ fontSettings) r in
  let r := load_if_changed (p_italicFont settings)
             (italicFont _ fontSettings) r in
  let r := load_if_changed (p_codeFont settings)
             (codeFont _ fontSettings) r in
  set_fontSettings newSettings r.

(** [resetFontSettings] *)
Definition resetFontSettings (r : Runtime number) : Runtime number :=
  set_fontSettings DEFAULT_FONT_SETTINGS r.

(** [addCustomFont] *)
Definition addCustomFont (fontName : jsstring) (r : Runtime number)
  : Runtime number :=
  let customFonts := customFonts _ (store _ r) in
  let trimmedName := trim fontName in
  if negb (bool_decide (trimmedName = []))
     && negb (bool_decide (trimmedName ∈ customFonts))
  then
    let r := set_customFonts (customFonts ++ [trimmedName]) r in
    loadGoogleFont number trimmedName r
  else r.

(** [removeCustomFont] *)
Definition removeCustomFont (fontName : jsstring) (r : Runtime number)
  : Runtime number :=
  let customFonts := customFonts _ (store _ r) in
  set_customFonts (filter (λ f, f ≠ fontName) customFonts) r.

(** [if (font) loadGoogleFont(font)] *)
Definition load_if_set (font : jsstring) (r : Runtime number)
  : Runtime number :=
  if bool_decide (font = []) then r else loadGoogleFont number font r.

(** The effect [FontSettingsEditor] runs on mount ("Load all fonts on
    mount"): the fonts of the four slots, then every custom font. *)
Definition loadAllFontsOnMount (r : Runtime number) : Runtime number :=
  let fontSettings := fontSettings _ (store _ r) in
  let customFonts := customFonts _ (store _ r) in
  let r := load_if_set (normalFont _ fontSettings) r in
  let r := load_if_set (dialogueFont _ fontSettings) r in
  let r := load_if_set (italicFont _ fontSettings) r in
  let r := load_if_set (codeFont _ fontSettings) r in
  foldl (λ r font, loadGoogleFont number font r) r customFonts.

(** Every font recorded as loaded has an element with its link's id in
    the document. *)
Definition loaded_fonts_linked (r : Runtime number) : Prop :=
  ∀ f, f ∈ loadedFonts _ (store _ r) →
       getElementById (document _ r) (el_id (font_link f)) ≠ None.
(** The second runtime has everything the first has: the same [window], a
    loaded-fonts set that contains the first, a head that starts with the
    children of the first, and the same elements elsewhere. *)
Definition runtime_grows (r r' : Runtime number) : Prop :=
  window_defined _ r' = window_defined _ r ∧
  loadedFonts _ (store _ r) ⊆ loadedFonts _ (store _ r') ∧
  head_children (document _ r) `prefix_of` head_children (document _ r') ∧
  elsewhere (document _ r') = elsewhere (document _ r).

(** One call of a member of the store, or one run of the mount effect. *)
Inductive StoreOp : Type :=
  | LoadGoogleFont (fontName : jsstring)
  | UpdateFontSettings (settings : PartialFontSettings)
  | ResetFontSettings
  | AddCustomFont (fontName : jsstring)
  | RemoveCustomFont (fontName : jsstring)
  | LoadAllFontsOnMount.

Definition run_store_op (op : StoreOp) (r : Runtime number) : Runtime number :=
  match op with
  | LoadGoogleFont f => loadGoogleFont number f r
  | UpdateFontSettings s => updateFontSettings s r
  | ResetFontSettings => resetFontSettings r
  | AddCustomFont f => addCustomFont f r
  | RemoveCustomFont f => removeCustomFont f r
  | LoadAllFontsOnMount => loadAllFontsOnMount r
  end.

Definition run_store_ops (ops : list StoreOp) (r : Runtime number)
  : Runtime number :=
  foldl (λ r op, run_store_op op r) r ops.
End StoreOperations.

End MessageFontStore.

(** ** Sample data for the closed examples *)

Definition sample_env : Oracle :=
  mkOracle (λ _, "2026-01-01T00:00:00.000Z") (λ _, "1767225600000")
           (λ _, "k3x9q0z").

(** An oracle whose clock always reads ["t0"]. *)
Definition frozen_env : Oracle :=
  mkOracle (λ _, "t0") (λ _, "0") (λ _, "0000000").

(** The two personas of the specification's example. *)
Definition persona_a : Persona :=
  mkPersona "a" "Ann" EmptyString None true "t0" "t0".
Definition persona_b : Persona :=
  mkPersona "b" "Bob" EmptyString None false "t0" "t0".
Definition persona_c : Persona :=
  mkPersona "c" "Cy" EmptyString None true "t0" "t0".

Definition personal_p : Personal :=
  mkPersonal "p" "Pat" EmptyString EmptyString None true "t0" "t0".
Definition personal_q : Personal :=
  mkPersonal "q" "Quin" EmptyString EmptyString None false "t0" "t0".
(** A well-typed entity whose id is the empty string. *)
Definition personal_noid : Personal :=
  mkPersonal EmptyString "Nemo" EmptyString EmptyString None false "t0" "t0".

Definition empty_world {E} : World E := mkWorld [] [] 0.

Definition world_ab : World Persona := mkWorld [persona_a; persona_b] [] 0.
Definition world_cb : World Persona := mkWorld [persona_c; persona_b] [] 0.
Definition world_abc : World Persona :=
  mkWorld [persona_a; persona_b; persona_c] [] 0.

(** A store whose second entity has the empty id, with settings that name
    ["p"] as default and map character ["char1"] to the empty id. *)
Definition world_p_noid : World Personal :=
  mkWorld [personal_p; personal_noid]
    [mkSettings (Some "p") {[ "char1" := EmptyString ]}] 2.

(** A store whose settings map ["char1"] to the empty id and ["char2"] to
    an id that no entity has. *)
Definition world_p_q : World Personal :=
  mkWorld [personal_p; personal_q]
    [mkSettings (Some "p") {[ "char1" := EmptyString; "char2" := "ghost" ]}] 2.

(** A persona with a description, flagged default. *)
Definition persona_d : Persona :=
  mkPersona "d" "Dee" "A tall ranger." None true "t0" "t0".

(** A store whose settings name persona ["a"] as default and map character
    ["char1"] to persona ["b"]. *)
Definition world_linked : World Persona :=
  mkWorld [persona_a; persona_b]
    [mkSettings (Some "a") {[ "char1" := "b" ]}] 0.

(** A store whose only persona has a description, and whose settings map
    character ["char1"] to an id that no persona has. *)
Definition world_dangling : World Persona :=
  mkWorld [persona_d] [mkSettings (Some "d") {[ "char1" := "ghost" ]}] 0.

(** A sequence of calls on the Persona store. *)
Definition sample_ops : list (Op Persona) :=
  [ OpInitializeDefault "me"; OpCreateNew "Ann"; OpSave persona_c;
    OpSetForCharacter "char1" (Some "c"); OpSetDefault "a"; OpDelete "c";
    OpSave persona_b ].

(** A browser runtime with an empty document and the initial store; the
    font sizes are natural numbers. *)
Definition sample_runtime : MessageFontStore.Runtime N :=
  MessageFontStore.mkRuntime N true (MessageFontStore.mkDocument [] [])
    (MessageFontStore.mkStore N
       (MessageFontStore.DEFAULT_FONT_SETTINGS (λ n, n)) [] ∅).

Definition font_lora : MessageFontStore.jsstring := MessageFontStore.lit "Lora".
Definition font_fira : MessageFontStore.jsstring :=
  MessageFontStore.lit "Fira Code".
(** The same two words, separated by a tab and a space. *)
Definition font_fira_wide : MessageFontStore.jsstring :=
  MessageFontStore.lit "Fira" ++ [9%N; 32%N] ++ MessageFontStore.lit "Code".
(** ["Lora"] with white space around it. *)
Definition font_lora_padded : MessageFontStore.jsstring :=
  [32%N] ++ MessageFontStore.lit "Lora" ++ [10%N; 32%N].

(** The update [{ normalFont: "Lora" }]. *)
Definition update_normal_lora : MessageFontStore.PartialFontSettings (number := N) :=
  MessageFontStore.mkPartialFontSettings
    (Some font_lora) None None None None None None None.

(** A sequence of calls on the font store. *)
Definition sample_store_ops : list (MessageFontStore.StoreOp (number := N)) :=
  [ MessageFontStore.AddCustomFont font_lora_padded;
    MessageFontStore.UpdateFontSettings update_normal_lora;
    MessageFontStore.LoadGoogleFont font_fira_wide;
    MessageFontStore.LoadAllFontsOnMount;
    MessageFontStore.RemoveCustomFont font_lora;
    MessageFontStore.ResetFontSettings ].

(** * Properties *)

Section Properties.
Context {E : Type} {entity : Entity E}.
Variable env : Oracle.

Implicit Types (w : World E) (e p q : E) (l personals : list E).

(** *** How the operations run *)

Lemma getEntitySettings_run w :
  getEntitySettings w =
    (match settingsFile w with
     | [] => mkSettings None ∅
     | s :: _ => s
     end, w).
Proof. reflexivity. Qed.

Lemma getDefaultEntity_run w :
  getDefaultEntity w = (find_default (entityFile w), w).
Proof. reflexivity. Qed.

Lemma getEntityById_run i w :
  getEntityById i w =
    (snd <$> list_find (λ p, ent_id p = i) (entityFile w), w).
Proof. reflexivity. Qed.

Lemma getEntityForCharacter_run c w :
  getEntityForCharacter c w =
    match characterEntityMap (eval getEntitySettings w) !! c with
    | Some i =>
        if truthy_string i then getEntityById i w else getDefaultEntity w
    | None => getDefaultEntity w
    end.
Proof.
  unfold getEntityForCharacter, bind, eval. rewrite getEntitySettings_run.
  simpl. by destruct (_ !! c) as [i|]; [destruct (truthy_string i)|].
Qed.

Lemma truthy_string_true s : truthy_string s = true ↔ s ≠ EmptyString.
Proof. unfold truthy_string. case_decide; intuition congruence. Qed.

Lemma truthy_string_false s : truthy_string s = false ↔ s = EmptyString.
Proof. unfold truthy_string. case_decide; intuition congruence. Qed.

(** *** [getDefault] *)

Lemma find_default_flagged personals i p :
  personals !! i = Some p →
  ent_isDefault p = true →
  (∀ j q, personals !! j = Some q → j < i → ent_isDefault q = false) →
  find_default personals = Some p.
Proof.
  intros Hi Hp Hleast. unfold find_default.
  assert (list_find (λ p, ent_isDefault p = true) personals = Some (i, p))
    as ->; [|done].
  apply list_find_Some. split_and!; [done..|].
  intros j q Hj Hlt. rewrite (Hleast j q Hj Hlt). done.
Qed.

Lemma find_default_unflagged personals :
  Forall (λ p, ent_isDefault p = false) personals →
  find_default personals = head personals.
Proof.
  intros Hall. unfold find_default.
  assert (list_find (λ p, ent_isDefault p = true) personals = None)
    as ->; [|done].
  apply list_find_None. eapply Forall_impl; [exact Hall|].
  intros p Hp. simpl in Hp. rewrite Hp. done.
Qed.

(** C7. [getDefault] returns [null] on an empty collection, the first
    entity flagged [isDefault] when one is flagged, and the first element
    of a non-empty collection in which no entity is flagged; it leaves the
    store as it was. *)
Theorem getDefault_cases w :
  (entityFile w = [] → eval getDefaultEntity w = None) ∧
  (∀ i p,
     entityFile w !! i = Some p →
     ent_isDefault p = true →
     (∀ j q, entityFile w !! j = Some q → j < i → ent_isDefault q = false) →
     eval getDefaultEntity w = Some p) ∧
  (∀ p rest,
     entityFile w = p :: rest →
     Forall (λ q, ent_isDefault q = false) (entityFile w) →
     eval getDefaultEntity w = Some p) ∧
  exec getDefaultEntity w = w.
Proof.
  unfold eval, exec. rewrite getDefaultEntity_run. simpl. split_and!.
  - by intros ->.
  - apply find_default_flagged.
  - intros p rest Hw Hall. rewrite find_default_unflagged by done.
    by rewrite Hw.
  - done.
Qed.

(** *** Per-character resolution *)


Lemma getEntityById_missing (i : string) w :
  (∀ p, p ∈ entityFile w → ent_id p ≠ i) →
  eval (getEntityById i) w = None.
Proof.
  intros Hmiss. unfold eval. rewrite getEntityById_run. simpl.
  assert (list_find (λ p, ent_id p = i) (entityFile w) = None) as ->; [|done].
  apply list_find_None, Forall_forall. exact Hmiss.
Qed.

(** C5, as the code has it.  When the settings map the character to a
    non-empty id that no entity of the collection carries, the result is
    [null], whatever the default entity is. *)
Theorem getForCharacter_dangling (c i : string) w :
  characterEntityMap (eval getEntitySettings w) !! c = Some i →
  i ≠ EmptyString →
  (∀ p, p ∈ entityFile w → ent_id p ≠ i) →
  eval (getEntityForCharacter c) w = None.
Proof.
  intros Hmap Hi Hmiss.
  unfold eval at 1. rewrite getEntityForCharacter_run, Hmap.
  apply truthy_string_true in Hi. rewrite Hi.
  by apply getEntityById_missing.
Qed.



(** *** [delete] *)

Lemma deleteEntity_run (d : string) w :
  deleteEntity d w =
    (tt, mkWorld (delete_filtered d (entityFile w))
           [delete_settings d (delete_filtered d (entityFile w))
              (eval getEntitySettings w)]
           (readings w)).
Proof. reflexivity. Qed.



(** The loop over the keys removes exactly the entries whose value is
    [d]. *)
Lemma prune_loop_lookup (d : string) (ks : list string)
    (acc : gmap string string) (c : string) :
  foldl (λ acc charId,
           if decide (acc !! charId = Some d) then delete charId acc else acc)
        acc ks !! c =
    if decide (c ∈ ks ∧ acc !! c = Some d) then None else acc !! c.
Proof.
  revert acc. induction ks as [|k ks IH]; intros acc.
  - cbn [foldl]. case_decide as Hc; [|done].
    destruct Hc as [Hin _]. by apply not_elem_of_nil in Hin.
  - cbn [foldl]. rewrite IH. destruct (decide (acc !! k = Some d)) as [Hk|Hk].
    + destruct (decide (c = k)) as [->|Hne].
      * rewrite lookup_delete_eq.
        rewrite (decide_True (P := k ∈ k :: ks ∧ _)); [|split; [left|done]].
        by case_decide.
      * rewrite lookup_delete_ne by done.
        apply decide_ext. rewrite elem_of_cons. intuition congruence.
    + apply decide_ext. rewrite elem_of_cons. intuition congruence.
Qed.

Lemma prune_character_map_lookup (d : string) (m : gmap string string)
    (c : string) :
  prune_character_map d m !! c =
    if decide (m !! c = Some d) then None else m !! c.
Proof.
  unfold prune_character_map. rewrite prune_loop_lookup.
  apply decide_ext. split; [tauto|].
  intros Hc. split; [|done]. unfold Object_keys.
  apply list_elem_of_fmap. exists (c, d). split; [done|].
  by apply elem_of_map_to_list.
Qed.

(** C3, as the code has it.  After [delete(d)] the settings record is the
    sole element of the settings file; every entry of its map whose value
    was [d] is gone and every other entry is kept; and when the default id
    was [d] it becomes the id of the first remaining entity if that id is
    a non-empty string, and [null] if nothing remains or that id is the
    empty string.  A default id other than [d] is kept. *)
Theorem delete_settings_cleanup (d : string) w :
  let before := eval getEntitySettings w in
  let w' := exec (deleteEntity d) w in
  let after := eval getEntitySettings w' in
  settingsFile w' = [after] ∧
  (∀ c, characterEntityMap after !! c =
          if decide (characterEntityMap before !! c = Some d) then None
          else characterEntityMap before !! c) ∧
  defaultEntityId after =
    if decide (defaultEntityId before = Some d) then
      match entityFile w' with
      | first :: _ =>
          if decide (ent_id first = EmptyString) then None
          else Some (ent_id first)
      | [] => None
      end
    else defaultEntityId before.
Proof.
  intros before w' after. subst before w' after.
  unfold exec. rewrite deleteEntity_run. simpl.
  unfold eval at 1 2 4. simpl. split_and!.
  - done.
  - intros c. apply prune_character_map_lookup.
  - case_decide; [|done].
    destruct (delete_filtered d (entityFile w)) as [|first rest]; [done|].
    simpl. unfold or_null, truthy, truthy_string. by case_decide.
Qed.

(** *** [save] *)

Lemma saveEntity_run e w :
  let stored := set_updatedAt (toISOString env (readings w)) e in
  let placed :=
    put_at (list_find (λ p, ent_id p = ent_id e) (entityFile w)) stored
      (entityFile w) in
  saveEntity env e w =
    (stored,
     mkWorld (if ent_isDefault stored
              then clear_other_defaults stored placed else placed)
       (settingsFile w) (S (readings w))).
Proof. reflexivity. Qed.

Lemma filter_all (P : E → Prop) `{∀ x, Decision (P x)} l :
  Forall P l → filter P l = l.
Proof.
  induction 1 as [|x l Hx _ IH]; [done|].
  by rewrite filter_cons_True, IH.
Qed.

Lemma count_default_app l1 l2 :
  count_default (l1 ++ l2) = count_default l1 + count_default l2.
Proof. unfold count_default. by rewrite filter_app, length_app. Qed.

Lemma count_default_cons p l :
  count_default (p :: l) =
    (if ent_isDefault p then 1 else 0) + count_default l.
Proof.
  unfold count_default. destruct (ent_isDefault p) eqn:Hp.
  - by rewrite filter_cons_True.
  - rewrite filter_cons_False; [done|]. by rewrite Hp.
Qed.

Lemma count_default_clear_others e l :
  Forall (λ p, ent_id p ≠ ent_id e) l →
  count_default (clear_other_defaults e l) = 0.
Proof.
  induction 1 as [|p l Hp _ IH]; [done|].
  cbn [clear_other_defaults map]. rewrite decide_True by done.
  rewrite count_default_cons, isDefault_set_isDefault. exact IH.
Qed.

(** With pairwise distinct ids, the array after the upsert is the other
    entities, in their order, with the saved one at one place. *)
Lemma put_at_split e stored l :
  NoDup (ent_id <$> l) →
  ∃ l1 l2,
    put_at (list_find (λ p, ent_id p = ent_id e) l) stored l
      = l1 ++ stored :: l2 ∧
    filter (λ p, ent_id p ≠ ent_id e) l = l1 ++ l2 ∧
    Forall (λ p, ent_id p ≠ ent_id e) (l1 ++ l2).
Proof.
  intros Hnodup.
  destruct (list_find _ l) as [[i x]|] eqn:Hfind; simpl.
  - apply list_find_Some in Hfind as (Hi & Hx & _).
    exists (take i l), (drop (S i) l).
    pose proof (lookup_lt_Some _ _ _ Hi) as Hlt.
    rewrite <- (take_drop_middle l i x Hi) in Hnodup.
    rewrite fmap_app, fmap_cons in Hnodup.
    apply NoDup_app in Hnodup as (_ & Hl1 & Hl2).
    apply NoDup_cons in Hl2 as [Hl2 _].
    assert (Forall (λ p, ent_id p ≠ ent_id e) (take i l)) as H1.
    { apply Forall_forall. intros p Hp Heq. apply (Hl1 (ent_id p)).
      - apply list_elem_of_fmap. by exists p.
      - rewrite Heq, <- Hx. left. }
    assert (Forall (λ p, ent_id p ≠ ent_id e) (drop (S i) l)) as H2.
    { apply Forall_forall. intros p Hp Heq. apply Hl2.
      rewrite Hx, <- Heq. apply list_elem_of_fmap. by exists p. }
    split_and!.
    + by apply insert_take_drop.
    + rewrite <- (take_drop_middle l i x Hi) at 1.
      rewrite filter_app, filter_cons_False by (intros Hne; by apply Hne).
      by rewrite !filter_all.
    + by apply Forall_app.
  - apply list_find_None in Hfind. exists l, [].
    rewrite app_nil_r. split_and!; [done| |done].
    by apply filter_all.
Qed.

(** C1, as the code has it.  On a collection whose ids are pairwise
    distinct: after [save(e)] with [e.isDefault = true] exactly one entity
    is flagged default; after [save(e)] with [e.isDefault = false] the
    entities flagged default are as many as the entities with another id
    that were flagged before (none is elected, so a non-empty collection
    can be left without a default). *)
Theorem save_default_count e w :
  NoDup (ent_id <$> entityFile w) →
  let after := entityFile (exec (saveEntity env e) w) in
  (ent_isDefault e = true → count_default after = 1) ∧
  (ent_isDefault e = false →
     count_default after =
     count_default (filter (λ p, ent_id p ≠ ent_id e) (entityFile w))).
Proof.
  intros Hnodup after. subst after. unfold exec.
  rewrite saveEntity_run. cbn [snd entityFile].
  rewrite isDefault_set_updatedAt.
  set (stored := set_updatedAt _ e).
  destruct (put_at_split e stored _ Hnodup) as (l1 & l2 & -> & -> & Hall).
  apply Forall_app in Hall as [Hl1 Hl2].
  assert (Hid : ent_id stored = ent_id e) by apply id_set_updatedAt.
  split; intros He; rewrite He.
  - unfold clear_other_defaults. rewrite map_app, map_cons.
    rewrite decide_False by (intros Hne; by apply Hne).
    rewrite count_default_app, count_default_cons.
    fold (clear_other_defaults stored l1) (clear_other_defaults stored l2).
    rewrite !count_default_clear_others by (by rewrite Hid).
    unfold stored. by rewrite isDefault_set_updatedAt, He.
  - rewrite !count_default_app, count_default_cons.
    unfold stored. by rewrite isDefault_set_updatedAt, He.
Qed.

Lemma save_written_others e stored l :
  ent_id stored = ent_id e →
  ent_isDefault stored = ent_isDefault e →
  (if ent_isDefault stored then clear_other_defaults stored l else l)
    = other_after_save e <$> l.
Proof.
  intros Hid Hdef. rewrite Hdef. unfold other_after_save, clear_other_defaults.
  destruct (ent_isDefault e); simpl.
  - apply map_ext. intros q. rewrite Hid.
    by destruct (decide (ent_id q ≠ ent_id e));
      [rewrite bool_decide_true|rewrite bool_decide_false].
  - by rewrite list_fmap_id.
Qed.

Lemma other_after_save_same e stored :
  ent_id stored = ent_id e → other_after_save e stored = stored.
Proof.
  intros Hid. unfold other_after_save.
  rewrite bool_decide_false by (intros Hne; by apply Hne).
  by rewrite andb_false_r.
Qed.

(** C8.  [save(e)] is an upsert by id with a timestamp refresh.  The
    stored entity is [e] with [updatedAt] set to the clock reading of the
    call.  If an entity with [e.id] exists, the stored entity takes the
    place of the first one and the length is unchanged; otherwise it is
    appended and the length grows by one.  Every other entity keeps its
    place, and keeps its fields but for [isDefault], which is set to
    [false] when [e.isDefault] holds and the ids differ; so after saving
    a default entity, no entity with another id is flagged default. *)
Theorem save_upsert e w :
  let ps := entityFile w in
  let stored := set_updatedAt (toISOString env (readings w)) e in
  let ps' := entityFile (exec (saveEntity env e) w) in
  (eval (saveEntity env e) w = stored ∧
   ent_updatedAt stored = toISOString env (readings w)) ∧
  (∀ i x,
     ps !! i = Some x → ent_id x = ent_id e →
     (∀ j y, ps !! j = Some y → j < i → ent_id y ≠ ent_id e) →
     length ps' = length ps ∧
     ps' !! i = Some stored ∧
     ∀ j, j ≠ i → ps' !! j = other_after_save e <$> ps !! j) ∧
  ((∀ x, x ∈ ps → ent_id x ≠ ent_id e) →
     length ps' = S (length ps) ∧
     ps' = (other_after_save e <$> ps) ++ [stored]) ∧
  (ent_isDefault e = true →
     ∀ q, q ∈ ps' → ent_id q ≠ ent_id e → ent_isDefault q = false).
Proof.
  intros ps stored ps'. subst ps'. unfold exec, eval.
  rewrite saveEntity_run. cbn [fst snd entityFile]. fold ps stored.
  assert (Hid : ent_id stored = ent_id e) by apply id_set_updatedAt.
  assert (Hdef : ent_isDefault stored = ent_isDefault e)
    by apply isDefault_set_updatedAt.
  rewrite (save_written_others e stored _ Hid Hdef).
  split_and!.
  - done.
  - apply updatedAt_set_updatedAt.
  - intros i x Hi Hx Hleast.
    assert (list_find (λ p, ent_id p = ent_id e) ps = Some (i, x)) as ->.
    { apply list_find_Some. split_and!; [done..|].
      intros j y Hj Hlt. by apply Hleast with j. }
    cbn [put_at]. pose proof (lookup_lt_Some _ _ _ Hi) as Hlt.
    split_and!.
    + by rewrite length_fmap, length_insert.
    + rewrite list_lookup_fmap, list_lookup_insert_eq by done. simpl.
      by rewrite other_after_save_same.
    + intros j Hne. by rewrite list_lookup_fmap, list_lookup_insert_ne.
  - intros Hnone.
    assert (list_find (λ p, ent_id p = ent_id e) ps = None) as ->.
    { apply list_find_None, Forall_forall. exact Hnone. }
    cbn [put_at]. split.
    + rewrite length_fmap, length_app. simpl. lia.
    + rewrite fmap_app. simpl. by rewrite other_after_save_same.
  - intros He q Hq Hne.
    apply list_elem_of_fmap in Hq as (q0 & -> & _).
    unfold other_after_save in *. rewrite He in *. simpl in *.
    destruct (decide (ent_id q0 ≠ ent_id e)) as [Hq0|Hq0].
    + rewrite bool_decide_true by done. apply isDefault_set_isDefault.
    + rewrite bool_decide_false in Hne by done. done.
Qed.

(** *** [setDefault] *)

(** The [forEach] of [setDefault]: the [k]-th entity is stamped with the
    [k]-th clock reading of the loop. *)
Lemma setDefault_loop_run (i : string) l w :
  forEach (λ p,
             let p := set_isDefault (bool_decide (ent_id p = i)) p in
             let! now := newDateISO env in
             ret (set_updatedAt now p)) l w =
    (imap (λ k p, set_updatedAt (toISOString env (readings w + k))
                    (set_isDefault (bool_decide (ent_id p = i)) p)) l,
     mkWorld (entityFile w) (settingsFile w) (readings w + length l)).
Proof.
  revert w. induction l as [|p l IH]; intros w.
  - simpl. unfold ret. destruct w. simpl. do 3 f_equal. lia.
  - cbn [forEach]. unfold bind at 1 2. cbn beta.
    unfold newDateISO at 1, reading at 1, ret at 1. cbn beta iota.
    unfold bind at 1. rewrite IH. cbn [entityFile settingsFile readings].
    unfold ret. f_equal.
    + cbn [imap]. rewrite Nat.add_0_r. f_equal.
      apply imap_ext. intros k q _. simpl. do 2 f_equal. lia.
    + f_equal. simpl. lia.
Qed.

Lemma setDefaultEntity_run (i : string) w :
  setDefaultEntity env i w =
    (tt, mkWorld
           (imap (λ k p, set_updatedAt (toISOString env (readings w + k))
                           (set_isDefault (bool_decide (ent_id p = i)) p))
              (entityFile w))
           [mkSettings (Some i) (characterEntityMap (eval getEntitySettings w))]
           (readings w + length (entityFile w))).
Proof.
  unfold setDefaultEntity, bind at 1, getAllEntities, readEntityFile.
  unfold bind at 1. rewrite setDefault_loop_run. reflexivity.
Qed.

(** C10.  When no entity has id [i], [setDefault(i)] leaves no entity
    flagged default while the settings record's default id is [i]; the
    collection keeps its length and the [k]-th entity's [updatedAt] is
    the [k]-th clock reading of the call. *)
Theorem setDefault_missing_id (i : string) w :
  (∀ p, p ∈ entityFile w → ent_id p ≠ i) →
  let w' := exec (setDefaultEntity env i) w in
  (∀ p, p ∈ entityFile w' → ent_isDefault p = false) ∧
  defaultEntityId (eval getEntitySettings w') = Some i ∧
  length (entityFile w') = length (entityFile w) ∧
  (∀ k p, entityFile w' !! k = Some p →
          ent_updatedAt p = toISOString env (readings w + k)).
Proof.
  intros Hmiss w'. subst w'. unfold exec. rewrite setDefaultEntity_run.
  cbn [snd entityFile]. split_and!.
  - intros p Hp. apply list_elem_of_lookup in Hp as [k Hk].
    apply list_lookup_imap_Some in Hk as (q & Hq & ->).
    rewrite isDefault_set_updatedAt, isDefault_set_isDefault.
    apply bool_decide_eq_false. apply Hmiss.
    by apply list_elem_of_lookup_2 with k.
  - reflexivity.
  - apply length_imap.
  - intros k p Hk.
    apply list_lookup_imap_Some in Hk as (q & Hq & ->).
    apply updatedAt_set_updatedAt.
Qed.
End Properties.

(** *** [loadGoogleFont] *)

Section FontProperties.
Import MessageFontStore.
Context {number : Type}.
Implicit Types (r : Runtime number) (f : jsstring).

(** A call that gets past both guards records the font as loaded. *)
Lemma loadGoogleFont_loaded f r :
  f ≠ [] → window_defined _ r = true →
  f ∈ loadedFonts _ (store _ (loadGoogleFont _ f r)).
Proof.
  intros Hf Hwin. unfold loadGoogleFont.
  rewrite bool_decide_false, Hwin by done. simpl.
  case_bool_decide as Hin; [done|]. simpl. set_solver.
Qed.

Lemma loadGoogleFont_window f r :
  window_defined _ (loadGoogleFont _ f r) = window_defined _ r.
Proof.
  unfold loadGoogleFont.
  destruct (_ || _); [done|]. by case_bool_decide.
Qed.

Lemma loadGoogleFont_twice f r :
  loadGoogleFont _ f (loadGoogleFont _ f r) = loadGoogleFont _ f r.
Proof.
  destruct (decide (f = [])) as [->|Hf]; [done|].
  destruct (window_defined _ r) eqn:Hwin.
  - pose proof (loadGoogleFont_loaded f r Hf Hwin) as Hin.
    unfold loadGoogleFont at 1.
    rewrite loadGoogleFont_window, Hwin, bool_decide_false by done. simpl.
    by rewrite bool_decide_true.
  - unfold loadGoogleFont. rewrite Hwin, orb_true_r. simpl.
    by rewrite Hwin, orb_true_r.
Qed.

(** One call appends at most the link of the font to the head, and
    touches nothing else of the document. *)
Lemma loadGoogleFont_document f r :
  document _ (loadGoogleFont _ f r) = document _ r ∨
  (getElementById (document _ r) (el_id (font_link f)) = None ∧
   document _ (loadGoogleFont _ f r) =
     head_appendChild (font_link f) (document _ r)).
Proof.
  unfold loadGoogleFont. destruct (_ || _); [by left|].
  case_bool_decide; [by left|]. simpl.
  destruct (getElementById _ _) eqn:Hget; [by left|by right].
Qed.

(** When no element carries the id of the font's link, the head holds no
    link for the font. *)
Lemma no_link_when_id_free f (d : Document) :
  getElementById d (el_id (font_link f)) = None →
  filter (λ e, e = font_link f) (head_children d) = [].
Proof.
  intros Hnone.
  destruct (filter _ (head_children d)) as [|e l] eqn:Hflt; [done|].
  assert (e ∈ filter (λ e, e = font_link f) (head_children d)) as He
    by (rewrite Hflt; left).
  apply list_elem_of_filter in He as [-> Hin].
  unfold getElementById in Hnone.
  eapply List.find_none in Hnone.
  2:{ apply list_elem_of_In, elem_of_app. left. exact Hin. }
  simpl in Hnone. by rewrite bool_decide_true in Hnone.
Qed.

(** C9.  [loadGoogleFont] is idempotent per font family: after the first
    call every further call leaves the runtime (document, loaded-fonts set
    and the rest of the store) unchanged, so any number of calls, one
    included, appends at most one link for the font to the head, and only
    when no element of the document carried the link's id; in particular
    the head then holds exactly one link for the font. *)
Theorem loadGoogleFont_idempotent f r (n : nat) :
  let r1 := loadGoogleFont _ f r in
  let rn := Nat.iter (S n) (loadGoogleFont _ f) r in
  loadGoogleFont _ f r1 = r1 ∧
  rn = r1 ∧
  loadedFonts _ (store _ rn) = loadedFonts _ (store _ r1) ∧
  (document _ rn = document _ r ∨
   document _ rn = head_appendChild (font_link f) (document _ r)) ∧
  length (links_for _ f rn) ≤ S (length (links_for _ f r)) ∧
  (document _ rn ≠ document _ r → length (links_for _ f rn) = 1).
Proof.
  intros r1 rn.
  assert (Hn : rn = r1).
  { subst rn r1. induction n as [|n IH]; [done|].
    rewrite Nat.iter_succ, IH. apply loadGoogleFont_twice. }
  rewrite Hn. subst r1. split_and!.
  - apply loadGoogleFont_twice.
  - done.
  - done.
  - destruct (loadGoogleFont_document f r) as [->|[_ ->]]; auto.
  - unfold links_for.
    destruct (loadGoogleFont_document f r) as [->|[_ ->]]; [lia|].
    simpl. rewrite filter_app, length_app. simpl.
    rewrite filter_cons_True by done. simpl. lia.
  - intros Hchanged. unfold links_for.
    destruct (loadGoogleFont_document f r) as [Heq|[Hnone Heq]]; [done|].
    rewrite Heq. simpl. rewrite filter_app, length_app.
    rewrite filter_cons_True by done. simpl.
    by rewrite (no_link_when_id_free f _ Hnone).
Qed.
End FontProperties.

(** *** A run of [loadGoogleFont] *)

Example loadGoogleFont_playfair :
  let r := MessageFontStore.mkRuntime unit true
             (MessageFontStore.mkDocument [] [])
             (MessageFontStore.mkStore unit
                (MessageFontStore.mkMessageFontSettings unit [] tt [] tt [] tt [] tt)
                [] ∅) in
  let f := MessageFontStore.lit "Playfair  Display" in
  MessageFontStore.el_id <$>
    MessageFontStore.head_children
      (MessageFontStore.document _ (MessageFontStore.loadGoogleFont _ f r))
    = [MessageFontStore.lit "google-font-Playfair+Display"] ∧
  MessageFontStore.el_href <$>
    MessageFontStore.head_children
      (MessageFontStore.document _ (MessageFontStore.loadGoogleFont _ f r))
    = [MessageFontStore.lit
         "https://fonts.googleapis.com/css2?family=Playfair+Display:wght@400;500;600;700&display=swap"].
Proof. by vm_compute. Qed.

(** ** Closed instances *)

(** C1 fails as stated.  [createNewPersonal] on an empty store, and
    [savePersona] of a persona that is not flagged default, leave a
    non-empty collection in which no entity is flagged default. *)
Lemma save_can_leave_no_default :
  entityFile (exec (createNewPersonal sample_env "Ann") empty_world) ≠ [] ∧
  count_default
    (entityFile (exec (createNewPersonal sample_env "Ann") empty_world)) = 0 ∧
  entityFile (exec (savePersona sample_env persona_b) empty_world) ≠ [] ∧
  count_default
    (entityFile (exec (savePersona sample_env persona_b) empty_world)) = 0.
Proof. by vm_compute. Qed.

Lemma save_default_count_witness :
  NoDup (ent_id <$> entityFile world_cb) ∧
  count_default
    (entityFile (exec (savePersona sample_env persona_a) world_cb)) = 1.
Proof.
  assert (Hnodup : NoDup (ent_id <$> entityFile world_cb)).
  { apply (bool_decide_unpack _). by vm_compute. }
  split; [exact Hnodup|].
  destruct (save_default_count sample_env persona_a world_cb Hnodup)
    as [Hone _].
  exact (Hone eq_refl).
Defined.



(** The two Personal stores used below arise from the empty store through
    the exported operations of the layer. *)
Example world_p_noid_reachable :
  exec (saveEntitySettings
          (mkSettings (Some "p") {[ "char1" := EmptyString ]}))
    (exec (savePersonal frozen_env personal_noid)
       (exec (savePersonal frozen_env personal_p) empty_world))
  = world_p_noid.
Proof. by vm_compute. Qed.

Example world_p_q_reachable :
  exec (saveEntitySettings
          (mkSettings (Some "p")
             {[ "char1" := EmptyString; "char2" := "ghost" ]}))
    (exec (savePersonal frozen_env personal_q)
       (exec (savePersonal frozen_env personal_p) empty_world))
  = world_p_q.
Proof. by vm_compute. Qed.

(** C3 fails as stated.  The default id is ["p"]; after
    [deletePersonal("p")] the first remaining entity has the empty string
    as its id, and the default id is [null], not that id. *)
Lemma delete_default_id_falls_to_null :
  defaultEntityId (eval getEntitySettings world_p_noid) = Some "p" ∧
  ent_id <$> head (entityFile (exec (deletePersonal "p") world_p_noid))
    = Some EmptyString ∧
  defaultEntityId
    (eval getEntitySettings (exec (deletePersonal "p") world_p_noid)) = None ∧
  defaultEntityId
    (eval getEntitySettings (exec (deletePersonal "p") world_p_noid))
    ≠ ent_id <$> head (entityFile (exec (deletePersonal "p") world_p_noid)).
Proof. by vm_compute. Qed.


(** C5 fails as stated.  The settings map character ["char1"] to the empty
    string and no entity has that id; [getPersonalForCharacter("char1")]
    falls back to the default entity instead of returning [null]. *)
Lemma getForCharacter_empty_id_falls_back :
  characterEntityMap (eval getEntitySettings world_p_q) !! "char1"
    = Some EmptyString ∧
  (∀ p, p ∈ entityFile world_p_q → ent_id p ≠ EmptyString) ∧
  eval (getPersonalForCharacter "char1") world_p_q = Some personal_p ∧
  eval (getPersonalForCharacter "char1") world_p_q ≠ None.
Proof.
  split_and!; [by vm_compute| |by vm_compute|by vm_compute].
  intros p Hp. simpl in Hp.
  apply elem_of_cons in Hp as [->|Hp]; [done|].
  apply elem_of_cons in Hp as [->|Hp]; [done|].
  by apply not_elem_of_nil in Hp.
Qed.

Lemma getForCharacter_dangling_witness :
  characterEntityMap (eval getEntitySettings world_p_q) !! "char2"
    = Some "ghost" ∧
  "ghost" ≠ EmptyString ∧
  (∀ p, p ∈ entityFile world_p_q → ent_id p ≠ "ghost") ∧
  eval getDefaultPersonal world_p_q = Some personal_p ∧
  eval (getPersonalForCharacter "char2") world_p_q = None.
Proof.
  assert (Hmap : characterEntityMap (eval getEntitySettings world_p_q)
                   !! "char2" = Some "ghost") by (by vm_compute).
  assert (Hne : "ghost" ≠ EmptyString) by done.
  assert (Hmiss : ∀ p, p ∈ entityFile world_p_q → ent_id p ≠ "ghost").
  { intros p Hp. simpl in Hp.
    apply elem_of_cons in Hp as [->|Hp]; [done|].
    apply elem_of_cons in Hp as [->|Hp]; [done|].
    by apply not_elem_of_nil in Hp. }
  split_and!; [exact Hmap|exact Hne|exact Hmiss|reflexivity|].
  exact (getForCharacter_dangling "char2" "ghost" world_p_q Hmap Hne Hmiss).
Defined.

Lemma getDefault_cases_witness :
  eval getDefaultPersona (empty_world (E := Persona)) = None ∧
  eval getDefaultPersona world_abc = Some persona_a ∧
  eval getDefaultPersona (mkWorld [persona_b; persona_c] [] 0) = Some persona_c ∧
  eval getDefaultPersona (mkWorld [persona_b] [] 0) = Some persona_b.
Proof.
  split_and!.
  - by apply (getDefault_cases (empty_world (E := Persona))).
  - apply (proj1 (proj2 (getDefault_cases world_abc)) 0 persona_a);
      [done|done|]. intros j q _ Hlt. lia.
  - apply (proj1 (proj2 (getDefault_cases (mkWorld [persona_b; persona_c] [] 0)))
             1 persona_c); [done|done|].
    intros j q Hj Hlt. destruct j as [|j]; [|lia]. by injection Hj as <-.
  - apply (proj1 (proj2 (proj2 (getDefault_cases (mkWorld [persona_b] [] 0))))
             persona_b []); [done|]. by repeat constructor.
Defined.

Lemma save_upsert_witness :
  entityFile (exec (savePersona sample_env (set_name "Robert" persona_b)) world_ab)
    !! 1 = Some (mkPersona "b" "Robert" EmptyString None false "t0"
                   "2026-01-01T00:00:00.000Z") ∧
  length (entityFile
            (exec (savePersona sample_env (set_name "Robert" persona_b)) world_ab))
    = 2 ∧
  entityFile (exec (savePersona sample_env persona_c) world_ab) =
    [mkPersona "a" "Ann" EmptyString None false "t0" "t0"; persona_b;
     mkPersona "c" "Cy" EmptyString None true "t0" "2026-01-01T00:00:00.000Z"].
Proof.
  pose proof (save_upsert sample_env (set_name "Robert" persona_b) world_ab)
    as (_ & Hreplace & _).
  destruct (Hreplace 1 persona_b) as (Hlen & Hat & _); [done|done| |].
  { intros j y Hj Hlt. destruct j as [|j]; [|lia]. by injection Hj as <-. }
  pose proof (save_upsert sample_env persona_c world_ab)
    as (_ & _ & Happend & _).
  destruct Happend as [_ Hnew].
  { intros x Hx. simpl in Hx.
    apply elem_of_cons in Hx as [->|Hx]; [done|].
    apply elem_of_cons in Hx as [->|Hx]; [done|].
    by apply not_elem_of_nil in Hx. }
  split_and!; [exact Hat|exact Hlen|exact Hnew].
Defined.

Lemma setDefault_missing_id_witness :
  (∀ p, p ∈ entityFile world_ab → ent_id p ≠ "zz") ∧
  (∀ p, p ∈ entityFile (exec (setDefaultPersona sample_env "zz") world_ab) →
        ent_isDefault p = false) ∧
  defaultEntityId
    (eval getEntitySettings (exec (setDefaultPersona sample_env "zz") world_ab))
    = Some "zz".
Proof.
  assert (Hmiss : ∀ p, p ∈ entityFile world_ab → ent_id p ≠ "zz").
  { intros p Hp. simpl in Hp.
    apply elem_of_cons in Hp as [->|Hp]; [done|].
    apply elem_of_cons in Hp as [->|Hp]; [done|].
    by apply not_elem_of_nil in Hp. }
  pose proof (setDefault_missing_id sample_env "zz" world_ab Hmiss)
    as (Hnone & Hdef & _).
  split_and!; [exact Hmiss|exact Hnone|exact Hdef].
Defined.

(** * Further properties of the storage layer *)

Section StoreProperties.
Context {E : Type} {entity : Entity E}.
Variable env : Oracle.

Implicit Types (w : World E) (e p q : E) (l personals : list E).

(** *** Lookups as filters *)

Lemma find_as_filter (P : E → Prop) `{∀ x, Decision (P x)} l :
  snd <$> list_find P l = head (filter P l).
Proof.
  induction l as [|x l IH]; [done|]. cbn [list_find].
  destruct (decide (P x)) as [Hx|Hx].
  - by rewrite filter_cons_True.
  - rewrite filter_cons_False by done. rewrite <- IH.
    by destruct (list_find P l) as [[??]|].
Qed.

Lemma getEntityById_filter (i : string) w :
  eval (getEntityById i) w = head (filter (λ p, ent_id p = i) (entityFile w)).
Proof. unfold eval. rewrite getEntityById_run. apply find_as_filter. Qed.

Lemma filter_none (P : E → Prop) `{∀ x, Decision (P x)} l :
  Forall (λ x, ¬ P x) l → filter P l = [].
Proof.
  induction 1 as [|x l Hx _ IH]; [done|]. by rewrite filter_cons_False.
Qed.

Lemma filter_fmap_id_preserving (f : E → E) (i : string) l :
  (∀ q, ent_id (f q) = ent_id q) →
  filter (λ p, ent_id p = i) (f <$> l) = f <$> filter (λ p, ent_id p = i) l.
Proof.
  intros Hf. induction l as [|x l IH]; [done|]. rewrite fmap_cons.
  destruct (decide (ent_id x = i)) as [Hx|Hx].
  - rewrite !filter_cons_True by (by rewrite ?Hf). by rewrite fmap_cons, IH.
  - rewrite !filter_cons_False by (by rewrite ?Hf). exact IH.
Qed.

Lemma head_fmap_list {B} (f : E → B) l : head (f <$> l) = f <$> head l.
Proof. by destruct l. Qed.

Lemma id_other_after_save e q : ent_id (other_after_save e q) = ent_id q.
Proof.
  unfold other_after_save. destruct (_ && _); [|done].
  apply id_set_isDefault.
Qed.

(** *** The shape of the array [save] writes *)

(** The entities before the first one with the saved id, the stored entity,
    and the entities after it (none when the id is new). *)
Lemma put_at_shape e stored l :
  ∃ l1 l2,
    put_at (list_find (λ p, ent_id p = ent_id e) l) stored l
      = l1 ++ stored :: l2 ∧
    Forall (λ p, ent_id p ≠ ent_id e) l1 ∧
    ((∃ x, l = l1 ++ x :: l2 ∧ ent_id x = ent_id e) ∨ (l = l1 ∧ l2 = [])).
Proof.
  destruct (list_find _ l) as [[i x]|] eqn:Hfind; simpl.
  - apply list_find_Some in Hfind as (Hi & Hx & Hleast).
    exists (take i l), (drop (S i) l).
    pose proof (lookup_lt_Some _ _ _ Hi) as Hlt. split_and!.
    + by apply insert_take_drop.
    + apply Forall_lookup. intros j y Hj.
      apply lookup_take_Some in Hj as [Hj Hji]. by apply (Hleast j).
    + left. exists x. split; [|done]. by rewrite take_drop_middle.
  - apply list_find_None in Hfind. exists l, []. split_and!; [done|done|].
    by right.
Qed.

Lemma saveEntity_written e w :
  ∃ l1 l2,
    entityFile (exec (saveEntity env e) w) =
      other_after_save e <$>
        (l1 ++ set_updatedAt (toISOString env (readings w)) e :: l2) ∧
    Forall (λ p, ent_id p ≠ ent_id e) l1 ∧
    ((∃ x, entityFile w = l1 ++ x :: l2 ∧ ent_id x = ent_id e)
     ∨ (entityFile w = l1 ∧ l2 = [])).
Proof.
  unfold exec. rewrite saveEntity_run. cbn [snd entityFile].
  set (stored := set_updatedAt _ e).
  rewrite (save_written_others e stored) by
    (apply id_set_updatedAt || apply isDefault_set_updatedAt).
  destruct (put_at_shape e stored (entityFile w)) as (l1 & l2 & -> & H1 & H2).
  by exists l1, l2.
Qed.

(** *** [save] then [getById] *)

Lemma saveEntity_lookup_stored e w :
  eval (getEntityById (ent_id e)) (exec (saveEntity env e) w)
    = Some (set_updatedAt (toISOString env (readings w)) e).
Proof.
  rewrite getEntityById_filter.
  destruct (saveEntity_written e w) as (l1 & l2 & -> & Hl1 & _).
  set (stored := set_updatedAt _ e).
  assert (Hid : ent_id stored = ent_id e) by apply id_set_updatedAt.
  rewrite filter_fmap_id_preserving by apply id_other_after_save.
  rewrite filter_app, filter_none, filter_cons_True by done. simpl.
  by rewrite other_after_save_same.
Qed.

(** X1.  After [save(e)], [getById(e.id)] returns the stored entity, which is
    the entity the call leaves in its argument: [e] with the timestamp of
    the call, and with every other field as given. *)
Theorem save_then_getById e w :
  eval (getEntityById (ent_id e)) (exec (saveEntity env e) w)
    = Some (eval (saveEntity env e) w) ∧
  eval (saveEntity env e) w
    = set_updatedAt (toISOString env (readings w)) e ∧
  ent_isDefault (eval (saveEntity env e) w) = ent_isDefault e.
Proof.
  assert (Hret : eval (saveEntity env e) w
                 = set_updatedAt (toISOString env (readings w)) e).
  { unfold eval. by rewrite saveEntity_run. }
  rewrite Hret. split_and!.
  - apply saveEntity_lookup_stored.
  - done.
  - apply isDefault_set_updatedAt.
Qed.

(** X2.  [save(e)] leaves every lookup by another id as it was, up to the
    [isDefault] flag that saving a default entity clears. *)
Theorem save_keeps_other_lookups e (j : string) w :
  j ≠ ent_id e →
  eval (getEntityById j) (exec (saveEntity env e) w)
    = other_after_save e <$> eval (getEntityById j) w.
Proof.
  intros Hj. rewrite !getEntityById_filter.
  destruct (saveEntity_written e w) as (l1 & l2 & -> & _ & Hshape).
  set (stored := set_updatedAt _ e).
  assert (Hid : ent_id stored = ent_id e) by apply id_set_updatedAt.
  rewrite filter_fmap_id_preserving by apply id_other_after_save.
  rewrite filter_app, filter_cons_False by (by rewrite Hid).
  destruct Hshape as [(x & -> & Hx)|[-> ->]].
  - rewrite filter_app, filter_cons_False by (by rewrite Hx).
    by rewrite head_fmap_list.
  - by rewrite filter_nil, app_nil_r, head_fmap_list.
Qed.

(** [save(e)] keeps the ids of the collection and their order, and adds
    [e.id] at the end when no entity had it. *)
Lemma saveEntity_ids e w :
  ent_id <$> entityFile (exec (saveEntity env e) w) =
    if decide (ent_id e ∈ ent_id <$> entityFile w)
    then ent_id <$> entityFile w
    else (ent_id <$> entityFile w) ++ [ent_id e].
Proof.
  destruct (saveEntity_written e w) as (l1 & l2 & -> & Hl1 & Hshape).
  set (stored := set_updatedAt _ e).
  assert (Hid : ent_id stored = ent_id e) by apply id_set_updatedAt.
  rewrite <- list_fmap_compose.
  rewrite (list_fmap_ext (ent_id ∘ other_after_save e) ent_id _)
    by (intros ? q _; apply id_other_after_save).
  rewrite fmap_app, fmap_cons, Hid.
  destruct Hshape as [(x & -> & Hx)|[-> ->]].
  - rewrite decide_True.
    + by rewrite fmap_app, fmap_cons, Hx.
    + rewrite fmap_app, fmap_cons, Hx. set_solver.
  - rewrite decide_False; [done|].
    intros (p & Hp & Hin)%list_elem_of_fmap.
    rewrite Forall_forall in Hl1. by apply (Hl1 p Hin).
Qed.

(** *** [delete] *)

Lemma id_set_first_default l :
  ent_id <$> set_first_default l = ent_id <$> l.
Proof. destruct l as [|p l]; [done|]. simpl. by rewrite id_set_isDefault. Qed.

Lemma delete_filtered_ids (d : string) l :
  ent_id <$> delete_filtered d l = ent_id <$> filter (λ p, ent_id p ≠ d) l.
Proof.
  unfold delete_filtered. destruct (_ && _); [|done].
  apply id_set_first_default.
Qed.

Lemma delete_filtered_not_d (d : string) l p :
  p ∈ delete_filtered d l → ent_id p ≠ d.
Proof.
  intros Hp Heq.
  assert (d ∈ ent_id <$> delete_filtered d l) as Hin.
  { apply list_elem_of_fmap. by exists p. }
  rewrite delete_filtered_ids in Hin.
  apply list_elem_of_fmap in Hin as (q & Hq & Hin).
  apply list_elem_of_filter in Hin as [Hne _]. done.
Qed.

(** X3.  After [delete(d)] no entity has id [d], so [getById(d)] returns
    [null]; the ids that remain are the other ids, in their order. *)
Theorem delete_then_getById (d : string) w :
  eval (getEntityById d) (exec (deleteEntity d) w) = None ∧
  ent_id <$> entityFile (exec (deleteEntity d) w)
    = ent_id <$> filter (λ p, ent_id p ≠ d) (entityFile w).
Proof.
  unfold exec. rewrite deleteEntity_run. cbn [snd]. split.
  - apply getEntityById_missing. cbn [entityFile].
    intros p Hp. by apply delete_filtered_not_d with (entityFile w).
  - apply delete_filtered_ids.
Qed.

Lemma count_default_filter_le (P : E → Prop) `{∀ x, Decision (P x)} l :
  count_default (filter P l) ≤ count_default l.
Proof.
  induction l as [|x l IH]; [done|].
  rewrite filter_cons. destruct (decide (P x)).
  - rewrite !count_default_cons. lia.
  - rewrite count_default_cons. lia.
Qed.

Lemma existsb_isDefault_count l :
  existsb ent_isDefault l = negb (count_default l =? 0).
Proof.
  induction l as [|x l IH]; [done|]. simpl.
  rewrite count_default_cons, IH. destruct (ent_isDefault x); [done|].
  by destruct (count_default l).
Qed.

Lemma delete_filtered_count (d : string) l :
  (delete_filtered d l ≠ [] → 1 ≤ count_default (delete_filtered d l)) ∧
  count_default (delete_filtered d l) ≤ Nat.max 1 (count_default l).
Proof.
  unfold delete_filtered.
  pose proof (count_default_filter_le (λ p, ent_id p ≠ d) l) as Hle.
  set (filtered := filter _ l) in *.
  rewrite existsb_isDefault_count, negb_involutive.
  destruct filtered as [|p rest] eqn:Hf; [simpl; split; [done|lia]|].
  cbn [length Nat.ltb Nat.leb andb].
  destruct (count_default (p :: rest) =? 0) eqn:Hz.
  - apply Nat.eqb_eq in Hz. simpl.
    rewrite count_default_cons in Hz.
    rewrite count_default_cons, isDefault_set_isDefault.
    split; lia.
  - apply Nat.eqb_neq in Hz. split; lia.
Qed.

(** X4.  [delete] heals the default: whenever entities remain, at least one of
    them is flagged default; and when at most one entity was flagged
    before, exactly one is flagged after. *)
Theorem delete_self_healing (d : string) w :
  entityFile (exec (deleteEntity d) w) ≠ [] →
  1 ≤ count_default (entityFile (exec (deleteEntity d) w)) ∧
  (count_default (entityFile w) ≤ 1 →
   count_default (entityFile (exec (deleteEntity d) w)) = 1).
Proof.
  unfold exec. rewrite deleteEntity_run. cbn [snd entityFile].
  intros Hne. destruct (delete_filtered_count d (entityFile w)) as [H1 H2].
  specialize (H1 Hne). split; [done|]. lia.
Qed.

Lemma deleteEntity_entityFile (d : string) w :
  entityFile (exec (deleteEntity d) w) = delete_filtered d (entityFile w).
Proof. unfold exec. by rewrite deleteEntity_run. Qed.

Lemma deleteEntity_settings (d : string) w :
  eval getEntitySettings (exec (deleteEntity d) w) =
    delete_settings d (delete_filtered d (entityFile w))
      (eval getEntitySettings w).
Proof. unfold exec. by rewrite deleteEntity_run. Qed.

(** The default id [delete(d)] leaves is the old one when that was not
    [d], and otherwise the id of a remaining entity or [null]. *)
Lemma delete_settings_default (d : string) l settings i :
  defaultEntityId (delete_settings d (delete_filtered d l) settings) = Some i →
  i ≠ d ∧
  (defaultEntityId settings = Some i ∨
   ∃ p, p ∈ delete_filtered d l ∧ ent_id p = i).
Proof.
  unfold delete_settings. cbn [defaultEntityId]. case_decide as Hwas.
  - destruct (delete_filtered d l) as [|p rest] eqn:Hf; [done|].
    simpl. unfold or_null, truthy. destruct (truthy_string _); [|done].
    intros [= <-].
    assert (p ∈ delete_filtered d l) as Hp by (rewrite Hf; left).
    split; [by apply delete_filtered_not_d with l|].
    right. exists p. by rewrite <- Hf.
  - intros Hi. split; [|by left]. intros ->. by apply Hwas.
Qed.

Lemma delete_settings_map (d : string) l settings c i :
  characterEntityMap (delete_settings d l settings) !! c = Some i →
  i ≠ d ∧ characterEntityMap settings !! c = Some i.
Proof.
  unfold delete_settings. cbn [characterEntityMap].
  rewrite prune_character_map_lookup. case_decide as Hc; [done|].
  intros Hi. split; [|done]. intros ->. by apply Hc.
Qed.

(** X5.  After [delete(d)] the settings hold no reference to [d]: the default
    id is not [d] and no character is mapped to [d]. *)
Theorem delete_leaves_no_reference (d : string) w :
  let settings := eval getEntitySettings (exec (deleteEntity d) w) in
  defaultEntityId settings ≠ Some d ∧
  ∀ c, characterEntityMap settings !! c ≠ Some d.
Proof.
  intros settings. subst settings. rewrite deleteEntity_settings. split.
  - intros Hd. by apply delete_settings_default in Hd as [Hne _].
  - intros c Hc. by apply delete_settings_map in Hc as [Hne _].
Qed.

Lemma saveEntity_settings e w :
  settingsFile (exec (saveEntity env e) w) = settingsFile w.
Proof. unfold exec. by rewrite saveEntity_run. Qed.

Lemma saveEntity_keeps_ids e w (i : string) :
  i ∈ ent_id <$> entityFile w →
  i ∈ ent_id <$> entityFile (exec (saveEntity env e) w).
Proof.
  intros Hi.
  destruct (saveEntity_written e w) as (l1 & l2 & -> & _ & Hshape).
  rewrite <- list_fmap_compose.
  rewrite (list_fmap_ext (ent_id ∘ other_after_save e) ent_id _)
    by (intros ? q _; apply id_other_after_save).
  rewrite fmap_app, fmap_cons, id_set_updatedAt.
  destruct Hshape as [(x & Hw & Hx)|[Hw ->]]; rewrite Hw in Hi.
  - by rewrite fmap_app, fmap_cons, Hx in Hi.
  - apply elem_of_app. by left.
Qed.

Lemma id_elem_of l (i : string) :
  i ∈ ent_id <$> l ↔ ∃ p, p ∈ l ∧ ent_id p = i.
Proof.
  rewrite list_elem_of_fmap. split; intros (p & ? & ?); by exists p.
Qed.

(** X6.  [save] and [delete] keep the references of the settings resolvable:
    if every id the settings hold names an entity before the call, so it
    does after. *)
Theorem save_delete_keep_references e (d : string) w :
  references_resolve w →
  references_resolve (exec (saveEntity env e) w) ∧
  references_resolve (exec (deleteEntity d) w).
Proof.
  intros [Hdef Hmap]. split.
  - unfold references_resolve, eval. rewrite getEntitySettings_run.
    rewrite saveEntity_settings. cbn [fst].
    unfold eval in Hdef, Hmap. rewrite getEntitySettings_run in Hdef, Hmap.
    split; intros; apply id_elem_of, saveEntity_keeps_ids, id_elem_of; eauto.
  - assert (Hkeep : ∀ i, i ≠ d → (∃ p, p ∈ entityFile w ∧ ent_id p = i) →
              ∃ p, p ∈ entityFile (exec (deleteEntity d) w) ∧ ent_id p = i).
    { intros i Hid (p & Hp & Hi). apply id_elem_of.
      rewrite deleteEntity_entityFile, delete_filtered_ids.
      apply id_elem_of. exists p. split; [|done].
      apply list_elem_of_filter. by rewrite Hi. }
    unfold references_resolve. rewrite deleteEntity_settings. split.
    + intros i Hi.
      apply delete_settings_default in Hi as [Hid [Hold|Hnew]]; [by auto|].
      by rewrite deleteEntity_entityFile.
    + intros c i Hi. apply delete_settings_map in Hi as [Hid Hold]. eauto.
Qed.

(** *** [setDefault] *)

Lemma setDefaultEntity_entityFile (i : string) w :
  entityFile (exec (setDefaultEntity env i) w) =
    imap (λ k p, set_updatedAt (toISOString env (readings w + k))
                   (set_isDefault (bool_decide (ent_id p = i)) p))
      (entityFile w).
Proof. unfold exec. by rewrite setDefaultEntity_run. Qed.

Lemma stamped_ids (i : string) (n : nat) l :
  ent_id <$> imap (λ k p, set_updatedAt (toISOString env (n + k))
                            (set_isDefault (bool_decide (ent_id p = i)) p)) l
    = ent_id <$> l.
Proof.
  apply list_eq. intros k. rewrite !list_lookup_fmap, list_lookup_imap.
  destruct (l !! k) as [p|]; [|done]. simpl.
  by rewrite id_set_updatedAt, id_set_isDefault.
Qed.

Lemma stamped_count (i : string) (n : nat) l :
  count_default
    (imap (λ k p, set_updatedAt (toISOString env (n + k))
                    (set_isDefault (bool_decide (ent_id p = i)) p)) l)
    = length (filter (λ p, ent_id p = i) l).
Proof.
  revert n. induction l as [|p l IH]; intros n; [done|].
  rewrite imap_cons, count_default_cons.
  rewrite isDefault_set_updatedAt, isDefault_set_isDefault.
  rewrite (imap_ext _ (λ k p, set_updatedAt (toISOString env (S n + k))
                     (set_isDefault (bool_decide (ent_id p = i)) p)))
    by (intros k q _; simpl; do 2 f_equal; lia).
  rewrite IH, filter_cons.
  destruct (decide (ent_id p = i));
    [rewrite bool_decide_true|rewrite bool_decide_false]; done.
Qed.

Lemma unique_id_count (i : string) l :
  NoDup (ent_id <$> l) → i ∈ ent_id <$> l →
  length (filter (λ p, ent_id p = i) l) = 1.
Proof.
  induction l as [|p l IH]; intros Hnodup Hin.
  - by apply not_elem_of_nil in Hin.
  - rewrite fmap_cons in Hnodup, Hin.
    apply NoDup_cons in Hnodup as [Hp Hnodup]. rewrite filter_cons.
    destruct (decide (ent_id p = i)) as [<-|Hne].
    + rewrite filter_none; [done|].
      apply Forall_forall. intros q Hq Heq. apply Hp.
      rewrite <- Heq. apply list_elem_of_fmap. by exists q.
    + apply elem_of_cons in Hin as [Heq|Hin]; [done|]. by apply IH.
Qed.

Lemma count_at_most_one_of_NoDup (i : string) l :
  NoDup (ent_id <$> l) → length (filter (λ p, ent_id p = i) l) ≤ 1.
Proof.
  intros Hnodup. destruct (decide (i ∈ ent_id <$> l)) as [Hin|Hin].
  - by rewrite unique_id_count.
  - rewrite filter_none; [simpl; lia|].
    apply Forall_forall. intros q Hq Heq. apply Hin.
    rewrite <- Heq. apply list_elem_of_fmap. by exists q.
Qed.

Lemma filter_ext_in (P Q : E → Prop) `{∀ x, Decision (P x)}
    `{∀ x, Decision (Q x)} l :
  (∀ x, x ∈ l → P x ↔ Q x) → filter P l = filter Q l.
Proof.
  induction l as [|x l IH]; intros Hext; [done|].
  rewrite !filter_cons, IH by (intros y Hy; apply Hext; by right).
  apply decide_ext, Hext. left.
Qed.

Lemma find_default_filter l :
  filter (λ p, ent_isDefault p = true) l ≠ [] →
  find_default l = head (filter (λ p, ent_isDefault p = true) l).
Proof.
  intros Hne. unfold find_default.
  pose proof (find_as_filter (λ p, ent_isDefault p = true) l) as Hfind.
  destruct (list_find _ l) as [[k q]|]; [done|].
  simpl in Hfind. by destruct (filter _ l).
Qed.

(** X7.  After [setDefault(i)] an entity is flagged default exactly when its id
    is [i]; the ids of the collection and the character map are as
    before, and the default id of the settings is [i]. *)
Theorem setDefault_flags (i : string) w :
  let w' := exec (setDefaultEntity env i) w in
  (∀ p, p ∈ entityFile w' → ent_isDefault p = bool_decide (ent_id p = i)) ∧
  ent_id <$> entityFile w' = ent_id <$> entityFile w ∧
  defaultEntityId (eval getEntitySettings w') = Some i ∧
  characterEntityMap (eval getEntitySettings w')
    = characterEntityMap (eval getEntitySettings w).
Proof.
  intros w'. subst w'. rewrite setDefaultEntity_entityFile. split_and!.
  - intros p Hp. apply list_elem_of_lookup in Hp as [k Hk].
    apply list_lookup_imap_Some in Hk as (q & Hq & ->).
    rewrite isDefault_set_updatedAt, isDefault_set_isDefault.
    by rewrite id_set_updatedAt, id_set_isDefault.
  - apply stamped_ids.
  - unfold exec. by rewrite setDefaultEntity_run.
  - unfold exec. by rewrite setDefaultEntity_run.
Qed.

(** X8.  On a collection with pairwise distinct ids that holds an entity with
    id [i], [setDefault(i)] leaves exactly one entity flagged default, and
    [getDefault] then returns the entity with id [i]. *)
Theorem setDefault_existing (i : string) w :
  NoDup (ent_id <$> entityFile w) →
  i ∈ ent_id <$> entityFile w →
  let w' := exec (setDefaultEntity env i) w in
  count_default (entityFile w') = 1 ∧
  ∃ q, eval getDefaultEntity w' = Some q ∧ ent_id q = i ∧
       eval (getEntityById i) w' = Some q.
Proof.
  intros Hnodup Hin w'. subst w'.
  set (after := entityFile (exec (setDefaultEntity env i) w)).
  assert (Hflags : filter (λ p, ent_isDefault p = true) after
                   = filter (λ p, ent_id p = i) after).
  { apply filter_ext_in. intros p Hp. unfold after in Hp.
    rewrite setDefaultEntity_entityFile in Hp.
    apply list_elem_of_lookup in Hp as [k Hk].
    apply list_lookup_imap_Some in Hk as (q & Hq & ->).
    rewrite isDefault_set_updatedAt, isDefault_set_isDefault.
    rewrite id_set_updatedAt, id_set_isDefault.
    by rewrite bool_decide_eq_true. }
  assert (Hcount : count_default after = 1).
  { unfold after. rewrite setDefaultEntity_entityFile, stamped_count.
    by apply unique_id_count. }
  split; [done|].
  unfold eval. rewrite getDefaultEntity_run, getEntityById_run. cbn [fst].
  fold after. rewrite find_as_filter, find_default_filter, Hflags.
  - unfold count_default in Hcount. rewrite Hflags in Hcount.
    destruct (filter (λ p, ent_id p = i) after) as [|q rest] eqn:Hflt; [done|].
    exists q. split_and!; [done| |done].
    assert (q ∈ filter (λ p, ent_id p = i) after) as Hq by (rewrite Hflt; left).
    by apply list_elem_of_filter in Hq as [Hq _].
  - unfold count_default in Hcount.
    by destruct (filter (λ p, ent_isDefault p = true) after).
Qed.

(** *** [setForCharacter] *)

Lemma setEntityForCharacter_run (c : string) (o : option string) w :
  setEntityForCharacter c o w =
    (tt, mkWorld (entityFile w)
           [mkSettings (defaultEntityId (eval getEntitySettings w))
              (match o with
               | Some i =>
                   if truthy_string i
                   then <[c := i]> (characterEntityMap (eval getEntitySettings w))
                   else delete c (characterEntityMap (eval getEntitySettings w))
               | None => delete c (characterEntityMap (eval getEntitySettings w))
               end)]
           (readings w)).
Proof. reflexivity. Qed.


Lemma getEntityForCharacter_mapped (c i : string) w :
  characterEntityMap (eval getEntitySettings w) !! c = Some i →
  i ≠ EmptyString →
  eval (getEntityForCharacter c) w = eval (getEntityById i) w.
Proof.
  intros Hmap Hi. unfold eval at 1. rewrite getEntityForCharacter_run, Hmap.
  apply truthy_string_true in Hi. by rewrite Hi.
Qed.



(** *** [initializeDefault] *)

Lemma count_default_le_length l : count_default l ≤ length l.
Proof. apply length_filter. Qed.

Lemma other_after_save_not_default e q :
  ent_isDefault e = false → other_after_save e q = q.
Proof. intros He. unfold other_after_save. by rewrite He. Qed.

Lemma saveEntity_on_empty e w :
  entityFile w = [] →
  saveEntity env e w =
    (set_updatedAt (toISOString env (readings w)) e,
     mkWorld [set_updatedAt (toISOString env (readings w)) e]
       (settingsFile w) (S (readings w))).
Proof.
  intros Hw. rewrite saveEntity_run. cbn zeta.
  rewrite (save_written_others e) by
    (apply id_set_updatedAt || apply isDefault_set_updatedAt).
  rewrite Hw. cbn [list_find put_at app fmap list_fmap].
  by rewrite other_after_save_same by apply id_set_updatedAt.
Qed.

Lemma initializeDefaultEntity_empty (username : string) w :
  entityFile w = [] →
  let stored :=
    set_updatedAt (toISOString env (S (S (readings w))))
      (createDefault (toISOString env (readings w))
         (dateNow env (S (readings w))) username) in
  initializeDefaultEntity env username w =
    (Some stored,
     mkWorld [stored]
       [mkSettings (Some (ent_id stored))
          (characterEntityMap (eval getEntitySettings w))]
       (S (S (S (readings w))))).
Proof.
  intros Hw stored. destruct w as [ps ss n]. cbn in Hw. subst ps.
  subst stored.
  cbv beta iota zeta delta
    [initializeDefaultEntity bind getAllEntities readEntityFile entityFile
     createDefaultEntity reading ret readings settingsFile].
  rewrite saveEntity_on_empty by done. reflexivity.
Qed.

Lemma initializeDefaultEntity_nonempty (username : string) w :
  entityFile w ≠ [] →
  initializeDefaultEntity env username w = (find_default (entityFile w), w).
Proof.
  intros Hw. destruct w as [ps ss n]. cbn in Hw.
  by destruct ps as [|p ps].
Qed.

Lemma find_default_is_Some l : l ≠ [] → is_Some (find_default l).
Proof.
  intros Hl. unfold find_default.
  destruct (list_find _ l) as [[k p]|]; [done|]. by destruct l.
Qed.

(** X10.  On an empty collection [initializeDefault(username)] stores one entity,
    flagged default, makes its id the default id of the settings, keeps
    the character map, and returns that entity.  On a non-empty collection
    it changes nothing and returns what [getDefault] returns.  It never
    returns [null]. *)
Theorem initializeDefault_cases (username : string) w :
  let w' := exec (initializeDefaultEntity env username) w in
  (entityFile w = [] →
   ∃ stored,
     eval (initializeDefaultEntity env username) w = Some stored ∧
     ent_isDefault stored = true ∧
     entityFile w' = [stored] ∧
     defaultEntityId (eval getEntitySettings w') = Some (ent_id stored) ∧
     eval getDefaultEntity w' = Some stored ∧
     characterEntityMap (eval getEntitySettings w')
       = characterEntityMap (eval getEntitySettings w)) ∧
  (entityFile w ≠ [] →
   w' = w ∧
   eval (initializeDefaultEntity env username) w = eval getDefaultEntity w) ∧
  is_Some (eval (initializeDefaultEntity env username) w).
Proof.
  intros w'. subst w'. unfold exec, eval.
  destruct (decide (entityFile w = [])) as [Hw|Hw].
  - rewrite (initializeDefaultEntity_empty username w Hw). cbn [fst snd].
    split_and!; [|intros Hne; by destruct Hne|by eexists].
    intros _. eexists.
    split_and!; [reflexivity| |reflexivity|reflexivity| |reflexivity].
    + by rewrite isDefault_set_updatedAt, isDefault_createDefault.
    + rewrite getDefaultEntity_run. cbn [fst entityFile].
      unfold find_default. cbn [list_find].
      rewrite decide_True; [done|].
      by rewrite isDefault_set_updatedAt, isDefault_createDefault.
  - rewrite (initializeDefaultEntity_nonempty username w Hw). cbn [fst snd].
    split_and!; [done|done|]. by apply find_default_is_Some.
Qed.

(** X11.  [initializeDefault] is idempotent: a second call, with any user name,
    leaves the store as the first call left it and returns the same
    entity. *)
Theorem initializeDefault_idempotent (username username' : string) w :
  let w' := exec (initializeDefaultEntity env username) w in
  exec (initializeDefaultEntity env username') w' = w' ∧
  eval (initializeDefaultEntity env username') w'
    = eval (initializeDefaultEntity env username) w.
Proof.
  intros w'. subst w'. unfold exec, eval.
  destruct (decide (entityFile w = [])) as [Hw|Hw].
  - rewrite (initializeDefaultEntity_empty username w Hw). cbn [fst snd].
    rewrite initializeDefaultEntity_nonempty by done. cbn [fst snd entityFile].
    split; [done|]. unfold find_default. cbn [list_find].
    rewrite decide_True; [done|].
    by rewrite isDefault_set_updatedAt, isDefault_createDefault.
  - rewrite (initializeDefaultEntity_nonempty username w Hw). cbn [fst snd].
    by rewrite initializeDefaultEntity_nonempty.
Qed.

(** *** [createNew] *)

Lemma createNewEntity_as_save (name : string) w :
  createNewEntity env name w =
    saveEntity env
      (set_name name
         (createEmpty (toISOString env (readings w))
            (dateNow env (S (readings w)))
            (randomSuffix env (S (S (readings w))))))
      (mkWorld (entityFile w) (settingsFile w) (S (S (S (readings w))))).
Proof. reflexivity. Qed.

Lemma saveEntity_appends e w :
  ent_isDefault e = false →
  ent_id e ∉ ent_id <$> entityFile w →
  entityFile (exec (saveEntity env e) w) =
    entityFile w ++ [set_updatedAt (toISOString env (readings w)) e].
Proof.
  intros He Hfresh. unfold exec. rewrite saveEntity_run. cbn [snd entityFile].
  rewrite (save_written_others e) by
    (apply id_set_updatedAt || apply isDefault_set_updatedAt).
  assert (list_find (λ p, ent_id p = ent_id e) (entityFile w) = None) as ->.
  { apply list_find_None, Forall_forall. intros p Hp Heq. apply Hfresh.
    rewrite <- Heq. apply list_elem_of_fmap. by exists p. }
  cbn [put_at].
  rewrite (list_fmap_ext (other_after_save e) id)
    by (intros ???; by apply other_after_save_not_default).
  apply list_fmap_id.
Qed.

(** X12.  [createNew(name)] returns an entity that carries the name, is not
    flagged default, and is what [getById] then returns for its id.  When
    no entity had the generated id, the collection is the old one with the
    new entity at its end; the settings are not touched. *)
Theorem createNew_appends `{!EntityNameLaws E} (name : string) w :
  let created := eval (createNewEntity env name) w in
  let w' := exec (createNewEntity env name) w in
  ent_name created = name ∧
  ent_isDefault created = false ∧
  eval (getEntityById (ent_id created)) w' = Some created ∧
  (ent_id created ∉ ent_id <$> entityFile w →
   entityFile w' = entityFile w ++ [created]) ∧
  settingsFile w' = settingsFile w.
Proof.
  intros created w'. subst created w'.
  set (fresh := set_name name
                  (createEmpty (toISOString env (readings w))
                     (dateNow env (S (readings w)))
                     (randomSuffix env (S (S (readings w)))))).
  set (w3 := mkWorld (entityFile w) (settingsFile w) (S (S (S (readings w))))).
  assert (Hex : exec (createNewEntity env name) w = exec (saveEntity env fresh) w3)
    by reflexivity.
  assert (Hev : eval (createNewEntity env name) w
                = set_updatedAt (toISOString env (readings w3)) fresh)
    by reflexivity.
  assert (Hdef : ent_isDefault fresh = false).
  { unfold fresh. by rewrite isDefault_set_name, isDefault_createEmpty. }
  rewrite Hex, Hev, id_set_updatedAt. split_and!.
  - unfold fresh. by rewrite name_set_updatedAt, name_set_name.
  - by rewrite isDefault_set_updatedAt.
  - apply (saveEntity_lookup_stored fresh w3).
  - intros Hfresh. apply (saveEntity_appends fresh w3 Hdef Hfresh).
  - apply (saveEntity_settings fresh w3).
Qed.

(** *** The single-default invariant *)

Lemma saveEntity_count_le e w :
  NoDup (ent_id <$> entityFile w) →
  count_default (entityFile w) ≤ 1 →
  count_default (entityFile (exec (saveEntity env e) w)) ≤ 1.
Proof.
  intros Hnodup Hle. unfold exec. rewrite saveEntity_run.
  cbn [snd entityFile]. rewrite isDefault_set_updatedAt.
  set (stored := set_updatedAt _ e).
  pose proof (count_default_filter_le (λ p, ent_id p ≠ ent_id e)
                (entityFile w)) as Hfl.
  destruct (put_at_split e stored _ Hnodup) as (l1 & l2 & -> & Hflt & Hall).
  rewrite Hflt in Hfl.
  apply Forall_app in Hall as [Hl1 Hl2].
  assert (Hid : ent_id stored = ent_id e) by apply id_set_updatedAt.
  rewrite count_default_app in Hfl.
  destruct (ent_isDefault e) eqn:He.
  - unfold clear_other_defaults. rewrite map_app, map_cons.
    rewrite count_default_app, count_default_cons.
    fold (clear_other_defaults stored l1) (clear_other_defaults stored l2).
    rewrite !count_default_clear_others by (by rewrite Hid).
    match goal with |- context [if ?b then 1 else 0] => destruct b end; lia.
  - rewrite count_default_app, count_default_cons.
    unfold stored. rewrite isDefault_set_updatedAt, He. lia.
Qed.

Lemma saveEntity_NoDup e w :
  NoDup (ent_id <$> entityFile w) →
  NoDup (ent_id <$> entityFile (exec (saveEntity env e) w)).
Proof.
  intros Hnodup. rewrite saveEntity_ids. case_decide as Hin; [done|].
  apply NoDup_app. split_and!; [done| |apply NoDup_singleton].
  intros i Hi ->%list_elem_of_singleton. done.
Qed.

Lemma run_op_single_default (op : Op E) w :
  single_default (entityFile w) →
  single_default (entityFile (run_op env op w)).
Proof.
  intros [Hnodup Hcount]. destruct op as [e|d|i|s|c o|u|name]; cbn [run_op].
  - split; [by apply saveEntity_NoDup|by apply saveEntity_count_le].
  - rewrite deleteEntity_entityFile. split.
    + rewrite delete_filtered_ids.
      apply (sublist_NoDup _ _ Hnodup).
      apply fmap_sublist, sublist_filter.
    + destruct (delete_filtered_count d (entityFile w)) as [_ Hle]. lia.
  - rewrite setDefaultEntity_entityFile. split.
    + by rewrite stamped_ids.
    + rewrite stamped_count. by apply count_at_most_one_of_NoDup.
  - done.
  - unfold exec. by rewrite setEntityForCharacter_run.
  - unfold exec. destruct (decide (entityFile w = [])) as [Hw|Hw].
    + rewrite (initializeDefaultEntity_empty u w Hw). cbn [snd entityFile].
      split; [apply NoDup_singleton|].
      etrans; [apply count_default_le_length|done].
    + by rewrite (initializeDefaultEntity_nonempty u w Hw).
  - unfold exec. rewrite createNewEntity_as_save.
    set (w3 := mkWorld _ _ _).
    split; [by apply (saveEntity_NoDup _ w3)|by apply (saveEntity_count_le _ w3)].
Qed.

(** X13.  Every sequence of exported calls keeps the invariant of the data
    model that the code can keep: from a store with pairwise distinct ids
    and at most one entity flagged default, the ids stay pairwise distinct
    and at most one entity is flagged default. *)
Theorem run_ops_single_default (ops : list (Op E)) w :
  single_default (entityFile w) →
  single_default (entityFile (run_ops env ops w)).
Proof.
  revert w. induction ops as [|op ops IH]; intros w Hw; [done|].
  cbn [run_ops foldl]. apply IH. by apply run_op_single_default.
Qed.

(** *** [setForCharacter], then [delete] *)

End StoreProperties.

(** * Further properties of the message-font store *)

Section FontStoreProperties.
Import MessageFontStore.
Context {number : Type}.
Variable literal : N → number.
Implicit Types (r : Runtime number) (f g : jsstring).

(** *** The formatted name *)

Lemma replace_runs_no_whitespace (inRun : bool) (s : jsstring) :
  Forall (λ c, isWhiteSpace c = false) (replace_runs inRun s).
Proof.
  revert inRun. induction s as [|c s IH]; intros inRun; [constructor|].
  cbn [replace_runs]. destruct (isWhiteSpace c) eqn:Hc.
  - destruct inRun; [apply IH|]. apply Forall_app. split; [|apply IH].
    by repeat constructor.
  - constructor; [done|apply IH].
Qed.

Lemma replace_whitespace_nil (s : jsstring) :
  replace_whitespace s = [] ↔ s = [].
Proof.
  split; [|by intros ->]. destruct s as [|c s]; [done|].
  unfold replace_whitespace. cbn [replace_runs].
  by destruct (isWhiteSpace c).
Qed.

(** X15.  Neither the id nor the address of the link built for a font holds a
    white-space code unit, whatever the font name. *)
Theorem font_link_no_whitespace f :
  Forall (λ c, isWhiteSpace c = false) (el_id (font_link f)) ∧
  Forall (λ c, isWhiteSpace c = false) (el_href (font_link f)).
Proof.
  unfold font_link. cbn [el_id el_href]. split.
  - apply Forall_app. split; [by vm_compute; repeat constructor|].
    apply replace_runs_no_whitespace.
  - apply Forall_app. split; [by vm_compute; repeat constructor|].
    apply Forall_app. split; [apply replace_runs_no_whitespace|].
    by vm_compute; repeat constructor.
Qed.

(** *** What one call of [loadGoogleFont] changes *)

Lemma loadGoogleFont_store f r :
  fontSettings _ (store _ (loadGoogleFont _ f r)) = fontSettings _ (store _ r) ∧
  customFonts _ (store _ (loadGoogleFont _ f r)) = customFonts _ (store _ r).
Proof.
  unfold loadGoogleFont. destruct (_ || _); [done|]. by case_bool_decide.
Qed.

Lemma loadGoogleFont_noop f r :
  f ∈ loadedFonts _ (store _ r) → loadGoogleFont _ f r = r.
Proof.
  intros Hin. unfold loadGoogleFont. destruct (_ || _); [done|].
  by rewrite bool_decide_true.
Qed.

Lemma loadGoogleFont_loadedFonts f r :
  loadedFonts _ (store _ (loadGoogleFont _ f r)) = loadedFonts _ (store _ r) ∨
  loadedFonts _ (store _ (loadGoogleFont _ f r))
    = loadedFonts _ (store _ r) ∪ {[f]}.
Proof.
  unfold loadGoogleFont. destruct (_ || _); [by left|].
  case_bool_decide; [by left|by right].
Qed.

Lemma runtime_grows_refl r : runtime_grows r r.
Proof. by unfold runtime_grows. Qed.

Lemma runtime_grows_trans r1 r2 r3 :
  runtime_grows r1 r2 → runtime_grows r2 r3 → runtime_grows r1 r3.
Proof.
  intros (Hw1 & Hl1 & Hh1 & He1) (Hw2 & Hl2 & Hh2 & He2).
  unfold runtime_grows. split_and!.
  - by rewrite Hw2.
  - by etrans.
  - by etrans.
  - by rewrite He2.
Qed.

Lemma loadGoogleFont_grows f r : runtime_grows r (loadGoogleFont _ f r).
Proof.
  unfold runtime_grows. split_and!.
  - apply loadGoogleFont_window.
  - destruct (loadGoogleFont_loadedFonts f r) as [->| ->]; set_solver.
  - destruct (loadGoogleFont_document f r) as [->|[_ ->]]; [done|].
    by apply prefix_app_r.
  - by destruct (loadGoogleFont_document f r) as [->|[_ ->]].
Qed.

Lemma getElementById_found (d : Document) (id : jsstring) :
  getElementById d id ≠ None ↔
  ∃ e, e ∈ head_children d ++ elsewhere d ∧ el_id e = id.
Proof.
  unfold getElementById. split.
  - destruct (List.find _ _) as [e|] eqn:Hfind; [|done]. intros _.
    apply List.find_some in Hfind as [Hin Hid]. exists e.
    split; [by apply list_elem_of_In|]. by apply bool_decide_eq_true in Hid.
  - intros (e & Hin & Hid) Hnone.
    eapply List.find_none in Hnone; [|by apply list_elem_of_In].
    simpl in Hnone. by rewrite bool_decide_true in Hnone.
Qed.

Lemma getElementById_grows r r' (id : jsstring) :
  runtime_grows r r' →
  getElementById (document _ r) id ≠ None →
  getElementById (document _ r') id ≠ None.
Proof.
  intros (_ & _ & [k Hk] & He). rewrite !getElementById_found.
  intros (e & Hin & Hid). exists e. split; [|done].
  rewrite Hk, He. apply elem_of_app in Hin as [Hin|Hin]; set_solver.
Qed.

Lemma loadGoogleFont_linked f r :
  loaded_fonts_linked r → loaded_fonts_linked (loadGoogleFont _ f r).
Proof.
  intros Hinv g Hg.
  destruct (decide (g ∈ loadedFonts _ (store _ r))) as [Hold|Hnew].
  - eapply getElementById_grows; [apply loadGoogleFont_grows|]. by apply Hinv.
  - assert (g = f) as ->.
    { destruct (loadGoogleFont_loadedFonts f r) as [Heq|Heq];
        rewrite Heq in Hg; [done|].
      apply elem_of_union in Hg as [Hg|Hg]; [done|].
      by apply elem_of_singleton in Hg. }
    destruct (loadGoogleFont_document f r) as [Hdoc|[_ Hdoc]].
    + (* the document is unchanged: the id was found *)
      revert Hg Hdoc. unfold loadGoogleFont. destruct (_ || _); [done|].
      rewrite bool_decide_false by done. cbn.
      destruct (getElementById _ _) eqn:Hget; [by rewrite Hget|].
      intros _ Hdoc. exfalso.
      apply (f_equal (λ d, length (head_children d))) in Hdoc.
      cbn in Hdoc. rewrite length_app in Hdoc. simpl in Hdoc. lia.
    + rewrite Hdoc. apply getElementById_found. exists (font_link f).
      split; [|done]. cbn. set_solver.
Qed.

(** *** Every member as a sequence of loads and field updates *)

Lemma set_fontSettings_grows (s : MessageFontSettings number) r :
  runtime_grows r (set_fontSettings s r).
Proof. by unfold runtime_grows. Qed.

Lemma set_customFonts_grows (l : list jsstring) r :
  runtime_grows r (set_customFonts l r).
Proof. by unfold runtime_grows. Qed.

Lemma run_store_op_preserves (Q : Runtime number → Prop) :
  (∀ f r, Q r → Q (loadGoogleFont _ f r)) →
  (∀ s r, Q r → Q (set_fontSettings s r)) →
  (∀ l r, Q r → Q (set_customFonts l r)) →
  ∀ op r, Q r → Q (run_store_op literal op r).
Proof.
  intros Hload Hfs Hcf.
  assert (Hchanged : ∀ new cur r, Q r → Q (load_if_changed new cur r)).
  { intros [f|] cur r Hr; [|done]. cbn. destruct (_ && _); auto. }
  assert (Hset : ∀ f r, Q r → Q (load_if_set f r)).
  { intros f r Hr. unfold load_if_set. case_bool_decide; auto. }
  assert (Hfold : ∀ l r, Q r →
            Q (foldl (λ r font, loadGoogleFont number font r) r l)).
  { induction l as [|f l IH]; intros r Hr; [done|]. cbn. auto. }
  intros [f|s| |f|f|] r Hr; cbn [run_store_op].
  - auto.
  - unfold updateFontSettings. auto 10.
  - unfold resetFontSettings. auto.
  - unfold addCustomFont. destruct (_ && _); auto.
  - unfold removeCustomFont. auto.
  - unfold loadAllFontsOnMount. auto 10.
Qed.

(** X16.  No sequence of calls ever removes a link from the head, touches an
    element outside it, or forgets a loaded font: the runtime only
    grows. *)
Theorem run_store_ops_grows (ops : list (StoreOp (number := number))) r :
  runtime_grows r (run_store_ops literal ops r).
Proof.
  assert (Hstep : ∀ op r0 r1, runtime_grows r0 r1 →
                    runtime_grows r0 (run_store_op literal op r1)).
  { intros op r0. apply run_store_op_preserves.
    - intros f r1 H1. eapply runtime_grows_trans; [exact H1|].
      apply loadGoogleFont_grows.
    - intros s r1 H1. eapply runtime_grows_trans; [exact H1|].
      apply set_fontSettings_grows.
    - intros l r1 H1. eapply runtime_grows_trans; [exact H1|].
      apply set_customFonts_grows. }
  assert (Hgen : ∀ r0 r1, runtime_grows r0 r1 →
                   runtime_grows r0 (run_store_ops literal ops r1)).
  { induction ops as [|op ops IH]; intros r0 r1 H1; [done|].
    cbn [run_store_ops foldl]. apply IH. by apply Hstep. }
  apply Hgen, runtime_grows_refl.
Qed.

(** X17.  Every sequence of calls keeps the loaded fonts linked: if every font
    recorded as loaded has an element with its link's id in the document,
    so it is after the calls.  It holds in a runtime whose loaded-fonts set
    is empty. *)
Theorem run_store_ops_linked (ops : list (StoreOp (number := number))) r :
  loaded_fonts_linked r →
  loaded_fonts_linked (run_store_ops literal ops r).
Proof.
  revert r. induction ops as [|op ops IH]; intros r Hr; [done|].
  cbn [run_store_ops foldl]. apply IH.
  revert Hr. apply run_store_op_preserves.
  - apply loadGoogleFont_linked.
  - done.
  - done.
Qed.

(** X18.  Two font names with the same formatted name share one link: once the
    first is loaded, loading the second adds nothing to the document. *)
Theorem same_formatted_name_one_link f g r :
  loaded_fonts_linked r →
  replace_whitespace f = replace_whitespace g →
  document _ (loadGoogleFont _ g (loadGoogleFont _ f r))
    = document _ (loadGoogleFont _ f r).
Proof.
  intros Hinv Hfmt.
  destruct (decide (f = [])) as [->|Hf].
  { assert (g = []) as -> by (apply replace_whitespace_nil; by rewrite <- Hfmt).
    done. }
  destruct (window_defined _ r) eqn:Hwin.
  - pose proof (loadGoogleFont_loaded f r Hf Hwin) as Hin.
    pose proof (loadGoogleFont_linked f r Hinv f Hin) as Hfound.
    set (r1 := loadGoogleFont _ f r) in *.
    assert (Hid : el_id (font_link g) = el_id (font_link f)).
    { unfold font_link. cbn. by rewrite Hfmt. }
    unfold loadGoogleFont at 1. destruct (_ || _); [done|].
    case_bool_decide; [done|]. cbv zeta. rewrite Hid.
    by destruct (getElementById (document number r1) (el_id (font_link f))).
  - unfold loadGoogleFont at 1.
    by rewrite loadGoogleFont_window, Hwin, orb_true_r.
Qed.

(** *** [trim] *)

Lemma trimStart_head (s : jsstring) c :
  head (trimStart s) = Some c → isWhiteSpace c = false.
Proof.
  induction s as [|a s IH]; [done|]. cbn [trimStart].
  destruct (isWhiteSpace a) eqn:Ha; [done|]. by intros [= <-].
Qed.

Lemma trimStart_fixed (s : jsstring) :
  (∀ c, head s = Some c → isWhiteSpace c = false) → trimStart s = s.
Proof.
  destruct s as [|a s]; [done|]. intros Hhead. cbn [trimStart].
  by rewrite (Hhead a).
Qed.

Lemma trimStart_suffix (s : jsstring) : trimStart s `suffix_of` s.
Proof.
  induction s as [|a s IH]; [done|]. cbn [trimStart].
  destruct (isWhiteSpace a); [by apply suffix_cons_r|done].
Qed.

Lemma suffix_last (s t : jsstring) :
  s `suffix_of` t → s ≠ [] → last s = last t.
Proof.
  intros [k ->] Hs. rewrite last_app. by destruct (last s) eqn:Hl;
    [|apply last_None in Hl].
Qed.

(** A trimmed string neither starts nor ends with white space. *)
Lemma trim_ends (s : jsstring) c :
  (head (trim s) = Some c → isWhiteSpace c = false) ∧
  (last (trim s) = Some c → isWhiteSpace c = false).
Proof.
  unfold trim. set (a := trimStart s). set (u := trimStart (reverse a)).
  split.
  - rewrite head_reverse. intros Hlast.
    assert (u ≠ []) as Hu by (intros Hu; by rewrite Hu in Hlast).
    rewrite (suffix_last u (reverse a)) in Hlast
      by (done || apply trimStart_suffix).
    rewrite last_reverse in Hlast. by apply (trimStart_head s).
  - rewrite last_reverse. apply trimStart_head.
Qed.

Lemma trim_fixed (s : jsstring) :
  (∀ c, head s = Some c → isWhiteSpace c = false) →
  (∀ c, last s = Some c → isWhiteSpace c = false) →
  trim s = s.
Proof.
  intros Hhead Hlast. unfold trim. rewrite (trimStart_fixed s) by done.
  rewrite trimStart_fixed; [apply reverse_involutive|].
  intros c. rewrite head_reverse. apply Hlast.
Qed.

Lemma trim_idempotent (s : jsstring) : trim (trim s) = trim s.
Proof. apply trim_fixed; intros c; apply trim_ends. Qed.

(** *** [addCustomFont] and [removeCustomFont] *)

Lemma addCustomFont_customFonts f r :
  customFonts _ (store _ (addCustomFont f r)) =
    if bool_decide (trim f = []) || bool_decide (trim f ∈ customFonts _ (store _ r))
    then customFonts _ (store _ r)
    else customFonts _ (store _ r) ++ [trim f].
Proof.
  unfold addCustomFont.
  destruct (bool_decide (trim f = [])); [done|].
  destruct (bool_decide (trim f ∈ _)); [done|]. cbn [negb andb orb].
  by rewrite (proj2 (loadGoogleFont_store _ _)).
Qed.

(** X19.  [addCustomFont] keeps the list of custom fonts free of duplicates, of
    empty names and of names that start or end with white space; and after
    the call the trimmed name, when it is not empty, is in the list. *)
Theorem addCustomFont_keeps_list_clean f r :
  NoDup (customFonts _ (store _ r)) →
  Forall (λ x, x ≠ [] ∧ trim x = x) (customFonts _ (store _ r)) →
  NoDup (customFonts _ (store _ (addCustomFont f r))) ∧
  Forall (λ x, x ≠ [] ∧ trim x = x)
    (customFonts _ (store _ (addCustomFont f r))) ∧
  (trim f ≠ [] → trim f ∈ customFonts _ (store _ (addCustomFont f r))).
Proof.
  intros Hnodup Hclean. rewrite addCustomFont_customFonts.
  case_bool_decide as Hempty; cbn [orb]; [done|].
  case_bool_decide as Hin; [done|]. split_and!.
  - apply NoDup_app. split_and!; [done| |apply NoDup_singleton].
    intros x Hx ->%list_elem_of_singleton. done.
  - apply Forall_app. split; [done|]. constructor; [|done].
    split; [done|apply trim_idempotent].
  - intros _. apply elem_of_app. right. left.
Qed.

Lemma addCustomFont_noop f r :
  trim f = [] ∨ trim f ∈ customFonts _ (store _ r) → addCustomFont f r = r.
Proof.
  intros Hcase. unfold addCustomFont.
  destruct Hcase as [Hempty|Hin].
  - by rewrite (bool_decide_true (trim f = [])).
  - rewrite (bool_decide_true (trim f ∈ _)) by done. by rewrite andb_false_r.
Qed.

(** X20.  Adding a font twice, or adding two names that differ only by the
    white space around them, is adding it once. *)
Theorem addCustomFont_idempotent f g r :
  trim f = trim g →
  addCustomFont g (addCustomFont f r) = addCustomFont f r.
Proof.
  intros Htrim. apply addCustomFont_noop. rewrite <- Htrim.
  destruct (decide (trim f = [])) as [Hempty|Hempty]; [by left|]. right.
  rewrite addCustomFont_customFonts, bool_decide_false by done. cbn [orb].
  case_bool_decide as Hin; [done|]. apply elem_of_app. right. left.
Qed.

Lemma removeCustomFont_customFonts f r :
  customFonts _ (store _ (removeCustomFont f r))
    = filter (λ x, x ≠ f) (customFonts _ (store _ r)).
Proof. reflexivity. Qed.

Lemma filter_ne_absent (x : jsstring) (l : list jsstring) :
  x ∉ l → filter (λ y, y ≠ x) l = l.
Proof.
  induction l as [|y l IH]; [done|]. intros Hx.
  apply not_elem_of_cons in Hx as [Hne Hx].
  rewrite filter_cons_True by done. by rewrite IH.
Qed.

(** X21.  Removing a font right after it was added gives the list of custom
    fonts back, without the font in it; but the removal touches neither the
    loaded-fonts set nor the document, so the font stays loaded and its
    stylesheet stays linked. *)
Theorem removeCustomFont_after_add f r :
  trim f ∉ customFonts _ (store _ r) →
  let r1 := addCustomFont f r in
  let r2 := removeCustomFont (trim f) r1 in
  customFonts _ (store _ r2) = customFonts _ (store _ r) ∧
  loadedFonts _ (store _ r2) = loadedFonts _ (store _ r1) ∧
  document _ r2 = document _ r1 ∧
  (trim f ≠ [] → window_defined _ r = true →
   trim f ∈ loadedFonts _ (store _ r2)).
Proof.
  intros Hfresh r1 r2. subst r1 r2. split_and!.
  - rewrite removeCustomFont_customFonts, addCustomFont_customFonts.
    rewrite (bool_decide_false (trim f ∈ _)) by done. rewrite orb_false_r.
    case_bool_decide as Hempty; [by apply filter_ne_absent|].
    rewrite filter_app, filter_ne_absent by done.
    rewrite filter_cons_False by (intros Hne; by apply Hne).
    by rewrite filter_nil, app_nil_r.
  - done.
  - done.
  - intros Hempty Hwin. cbn [removeCustomFont set_customFonts store loadedFonts].
    unfold addCustomFont.
    rewrite bool_decide_false, bool_decide_false by done. cbn [negb andb].
    by apply loadGoogleFont_loaded.
Qed.

(** *** [updateFontSettings] *)

Lemma load_if_changed_same (new : option jsstring) (cur : jsstring) r :
  default cur new = cur → load_if_changed new cur r = r.
Proof.
  destruct new as [f|]; [|done]. cbn. intros ->.
  by rewrite (bool_decide_true (cur = cur)), andb_false_r.
Qed.

Lemma load_if_changed_grows (new : option jsstring) (cur : jsstring) r :
  runtime_grows r (load_if_changed new cur r).
Proof.
  destruct new as [f|]; [|apply runtime_grows_refl]. cbn.
  destruct (_ && _); [apply loadGoogleFont_grows|apply runtime_grows_refl].
Qed.

Lemma load_if_changed_loads (cur f : jsstring) r :
  f ≠ [] → f ≠ cur → window_defined _ r = true →
  f ∈ loadedFonts _ (store _ (load_if_changed (Some f) cur r)).
Proof.
  intros Hf Hne Hwin. cbn. rewrite !bool_decide_false by done. cbn.
  by apply loadGoogleFont_loaded.
Qed.

Lemma set_fontSettings_same r :
  set_fontSettings (fontSettings _ (store _ r)) r = r.
Proof. by destruct r as [? ? []]. Qed.

Lemma updateFontSettings_unchanged (s : PartialFontSettings) r :
  spread (fontSettings _ (store _ r)) s = fontSettings _ (store _ r) →
  updateFontSettings s r = r.
Proof.
  intros Hsame. unfold updateFontSettings. rewrite Hsame.
  rewrite !load_if_changed_same.
  - apply set_fontSettings_same.
  - by apply (f_equal (normalFont number)) in Hsame.
  - by apply (f_equal (dialogueFont number)) in Hsame.
  - by apply (f_equal (italicFont number)) in Hsame.
  - by apply (f_equal (codeFont number)) in Hsame.
Qed.

Lemma load_if_changed_fontSettings (new : option jsstring) (cur : jsstring) r :
  fontSettings _ (store _ (load_if_changed new cur r))
    = fontSettings _ (store _ r) ∧
  customFonts _ (store _ (load_if_changed new cur r))
    = customFonts _ (store _ r).
Proof.
  destruct new as [f|]; [|done]. cbn.
  destruct (_ && _); [apply loadGoogleFont_store|done].
Qed.

Lemma spread_spread (fs : MessageFontSettings number)
    (s : PartialFontSettings) :
  spread (spread fs s) s = spread fs s.
Proof. by destruct s as [[?|] [?|] [?|] [?|] [?|] [?|] [?|] [?|]]. Qed.

(** X22.  An update that changes no field is a no-op: in particular, choosing
    the font a slot already holds loads nothing, even when that font was
    never loaded.  And every update is idempotent. *)
Theorem updateFontSettings_idempotent (s : PartialFontSettings) r :
  (spread (fontSettings _ (store _ r)) s = fontSettings _ (store _ r) →
   updateFontSettings s r = r) ∧
  updateFontSettings s (updateFontSettings s r) = updateFontSettings s r.
Proof.
  split; [apply updateFontSettings_unchanged|].
  apply updateFontSettings_unchanged.
  assert (fontSettings _ (store _ (updateFontSettings s r))
          = spread (fontSettings _ (store _ r)) s) as -> by reflexivity.
  apply spread_spread.
Qed.

(** X23.  With [window] defined, after [updateFontSettings(settings)] every
    font the update gives to a slot is loaded when it is a non-empty name
    other than the one the slot held; the settings are the old ones
    overwritten by the fields given, and the custom fonts are as before. *)
Theorem updateFontSettings_loads (s : PartialFontSettings) r f :
  window_defined _ r = true →
  f ≠ [] →
  (p_normalFont s = Some f ∧ f ≠ normalFont _ (fontSettings _ (store _ r))) ∨
  (p_dialogueFont s = Some f
   ∧ f ≠ dialogueFont _ (fontSettings _ (store _ r))) ∨
  (p_italicFont s = Some f ∧ f ≠ italicFont _ (fontSettings _ (store _ r))) ∨
  (p_codeFont s = Some f ∧ f ≠ codeFont _ (fontSettings _ (store _ r))) →
  f ∈ loadedFonts _ (store _ (updateFontSettings s r)) ∧
  fontSettings _ (store _ (updateFontSettings s r))
    = spread (fontSettings _ (store _ r)) s ∧
  customFonts _ (store _ (updateFontSettings s r)) = customFonts _ (store _ r).
Proof.
  intros Hwin Hf Hslot. split_and!; [|reflexivity|].
  - unfold updateFontSettings.
    set (fs := fontSettings number (store number r)).
    set (r1 := load_if_changed (p_normalFont s) (normalFont _ fs) r).
    set (r2 := load_if_changed (p_dialogueFont s) (dialogueFont _ fs) r1).
    set (r3 := load_if_changed (p_italicFont s) (italicFont _ fs) r2).
    set (r4 := load_if_changed (p_codeFont s) (codeFont _ fs) r3).
    cbn [set_fontSettings store loadedFonts].
    pose proof (load_if_changed_grows (p_normalFont s) (normalFont _ fs) r)
      as G1.
    pose proof (load_if_changed_grows (p_dialogueFont s) (dialogueFont _ fs) r1)
      as G2.
    pose proof (load_if_changed_grows (p_italicFont s) (italicFont _ fs) r2)
      as G3.
    pose proof (load_if_changed_grows (p_codeFont s) (codeFont _ fs) r3)
      as G4.
    fold r1 in G1. fold r2 in G2. fold r3 in G3. fold r4 in G4.
    destruct G1 as (W1 & L1 & _), G2 as (W2 & L2 & _),
             G3 as (W3 & L3 & _), G4 as (W4 & L4 & _).
    destruct Hslot as [[Hp Hne]|[[Hp Hne]|[[Hp Hne]|[Hp Hne]]]].
    + apply L4, L3, L2. unfold r1. rewrite Hp.
      by apply load_if_changed_loads.
    + apply L4, L3. unfold r2. rewrite Hp.
      apply load_if_changed_loads; [done|done|]. by rewrite W1.
    + apply L4. unfold r3. rewrite Hp.
      apply load_if_changed_loads; [done|done|]. by rewrite W2, W1.
    + unfold r4. rewrite Hp.
      apply load_if_changed_loads; [done|done|]. by rewrite W3, W2, W1.
  - unfold updateFontSettings. cbn [set_fontSettings store customFonts].
    by rewrite !(proj2 (load_if_changed_fontSettings _ _ _)).
Qed.

(** *** The mount effect *)

Lemma loadGoogleFont_stable f r :
  f = [] ∨ window_defined _ r = false ∨ f ∈ loadedFonts _ (store _ r) →
  loadGoogleFont _ f r = r.
Proof.
  intros [->|[Hwin|Hin]]; [done| |by apply loadGoogleFont_noop].
  unfold loadGoogleFont. by rewrite Hwin, orb_true_r.
Qed.

Lemma load_if_set_grows f r : runtime_grows r (load_if_set f r).
Proof.
  unfold load_if_set. case_bool_decide;
    [apply runtime_grows_refl|apply loadGoogleFont_grows].
Qed.

Lemma load_if_set_loads f r :
  f ≠ [] → window_defined _ r = true →
  f ∈ loadedFonts _ (store _ (load_if_set f r)).
Proof.
  intros Hf Hwin. unfold load_if_set. rewrite bool_decide_false by done.
  by apply loadGoogleFont_loaded.
Qed.

Lemma load_if_set_stable f r :
  f = [] ∨ window_defined _ r = false ∨ f ∈ loadedFonts _ (store _ r) →
  load_if_set f r = r.
Proof.
  intros Hcase. unfold load_if_set. case_bool_decide; [done|].
  by apply loadGoogleFont_stable.
Qed.

Lemma load_all_grows (l : list jsstring) r :
  runtime_grows r (foldl (λ r font, loadGoogleFont number font r) r l).
Proof.
  revert r. induction l as [|f l IH]; intros r; [apply runtime_grows_refl|].
  cbn [foldl]. eapply runtime_grows_trans; [apply loadGoogleFont_grows|].
  apply IH.
Qed.

Lemma load_all_loads (l : list jsstring) f r :
  f ∈ l → f ≠ [] → window_defined _ r = true →
  f ∈ loadedFonts _
        (store _ (foldl (λ r font, loadGoogleFont number font r) r l)).
Proof.
  revert r. induction l as [|g l IH]; intros r Hin Hf Hwin.
  - by apply not_elem_of_nil in Hin.
  - cbn [foldl]. apply elem_of_cons in Hin as [->|Hin].
    + destruct (load_all_grows l (loadGoogleFont _ g r)) as (_ & Hsub & _).
      apply Hsub. by apply loadGoogleFont_loaded.
    + apply IH; [done|done|]. by rewrite loadGoogleFont_window.
Qed.

Lemma load_all_stable (l : list jsstring) r :
  (∀ f, f ∈ l →
     f = [] ∨ window_defined _ r = false ∨ f ∈ loadedFonts _ (store _ r)) →
  foldl (λ r font, loadGoogleFont number font r) r l = r.
Proof.
  induction l as [|g l IH]; intros Hall; [done|]. cbn [foldl].
  rewrite loadGoogleFont_stable by (apply Hall; left).
  apply IH. intros f Hf. apply Hall. by right.
Qed.

Lemma load_all_store (l : list jsstring) r :
  fontSettings _ (store _ (foldl (λ r font, loadGoogleFont number font r) r l))
    = fontSettings _ (store _ r) ∧
  customFonts _ (store _ (foldl (λ r font, loadGoogleFont number font r) r l))
    = customFonts _ (store _ r).
Proof.
  revert r. induction l as [|g l IH]; intros r; [done|]. cbn [foldl].
  destruct (IH (loadGoogleFont _ g r)) as [-> ->].
  apply loadGoogleFont_store.
Qed.

Lemma load_if_set_store f r :
  fontSettings _ (store _ (load_if_set f r)) = fontSettings _ (store _ r) ∧
  customFonts _ (store _ (load_if_set f r)) = customFonts _ (store _ r).
Proof.
  unfold load_if_set. case_bool_decide; [done|apply loadGoogleFont_store].
Qed.

Lemma loadAllFontsOnMount_store r :
  fontSettings _ (store _ (loadAllFontsOnMount r)) = fontSettings _ (store _ r) ∧
  customFonts _ (store _ (loadAllFontsOnMount r)) = customFonts _ (store _ r).
Proof.
  unfold loadAllFontsOnMount.
  destruct (load_all_store (customFonts _ (store _ r))
    (load_if_set (codeFont _ (fontSettings _ (store _ r)))
       (load_if_set (italicFont _ (fontSettings _ (store _ r)))
          (load_if_set (dialogueFont _ (fontSettings _ (store _ r)))
             (load_if_set (normalFont _ (fontSettings _ (store _ r))) r)))))
    as [-> ->].
  split.
  - by rewrite !(proj1 (load_if_set_store _ _)).
  - by rewrite !(proj2 (load_if_set_store _ _)).
Qed.

Lemma loadAllFontsOnMount_loads r f :
  window_defined _ r = true →
  f ≠ [] →
  f = normalFont _ (fontSettings _ (store _ r)) ∨
  f = dialogueFont _ (fontSettings _ (store _ r)) ∨
  f = italicFont _ (fontSettings _ (store _ r)) ∨
  f = codeFont _ (fontSettings _ (store _ r)) ∨
  f ∈ customFonts _ (store _ r) →
  f ∈ loadedFonts _ (store _ (loadAllFontsOnMount r)).
Proof.
  intros Hwin Hf Hslot. unfold loadAllFontsOnMount.
  set (fs := fontSettings number (store number r)) in *.
  set (r1 := load_if_set (normalFont _ fs) r).
  set (r2 := load_if_set (dialogueFont _ fs) r1).
  set (r3 := load_if_set (italicFont _ fs) r2).
  set (r4 := load_if_set (codeFont _ fs) r3).
  destruct (load_if_set_grows (normalFont _ fs) r) as (W1 & L1 & _).
  destruct (load_if_set_grows (dialogueFont _ fs) r1) as (W2 & L2 & _).
  destruct (load_if_set_grows (italicFont _ fs) r2) as (W3 & L3 & _).
  destruct (load_if_set_grows (codeFont _ fs) r3) as (W4 & L4 & _).
  fold r1 in W1, L1. fold r2 in W2, L2. fold r3 in W3, L3. fold r4 in W4, L4.
  destruct (load_all_grows (customFonts number (store number r)) r4)
    as (_ & L5 & _).
  destruct Hslot as [->|[->|[->|[->|Hin]]]].
  - apply L5, L4, L3, L2. by apply load_if_set_loads.
  - apply L5, L4, L3. apply load_if_set_loads; [done|]. by rewrite W1.
  - apply L5, L4. apply load_if_set_loads; [done|]. by rewrite W2, W1.
  - apply L5. apply load_if_set_loads; [done|]. by rewrite W3, W2, W1.
  - apply load_all_loads; [done|done|]. by rewrite W4, W3, W2, W1.
Qed.

(** X24.  With [window] defined, the mount effect of the font editor leaves
    every non-empty font of the four slots and every non-empty custom font
    loaded, without changing the settings or the custom fonts; running it
    again changes nothing. *)
Theorem loadAllFontsOnMount_loads_all r :
  window_defined _ r = true →
  (∀ f, f ≠ [] →
        f = normalFont _ (fontSettings _ (store _ r)) ∨
        f = dialogueFont _ (fontSettings _ (store _ r)) ∨
        f = italicFont _ (fontSettings _ (store _ r)) ∨
        f = codeFont _ (fontSettings _ (store _ r)) ∨
        f ∈ customFonts _ (store _ r) →
        f ∈ loadedFonts _ (store _ (loadAllFontsOnMount r))) ∧
  fontSettings _ (store _ (loadAllFontsOnMount r)) = fontSettings _ (store _ r) ∧
  customFonts _ (store _ (loadAllFontsOnMount r)) = customFonts _ (store _ r) ∧
  loadAllFontsOnMount (loadAllFontsOnMount r) = loadAllFontsOnMount r.
Proof.
  intros Hwin.
  pose proof (loadAllFontsOnMount_store r) as [Hfs Hcf].
  split_and!; [by intros f; apply loadAllFontsOnMount_loads|done|done|].
  set (r' := loadAllFontsOnMount r) in *.
  assert (Hstable : ∀ f,
            f = normalFont _ (fontSettings _ (store _ r)) ∨
            f = dialogueFont _ (fontSettings _ (store _ r)) ∨
            f = italicFont _ (fontSettings _ (store _ r)) ∨
            f = codeFont _ (fontSettings _ (store _ r)) ∨
            f ∈ customFonts _ (store _ r) →
            f = [] ∨ window_defined _ r' = false
            ∨ f ∈ loadedFonts _ (store _ r')).
  { intros f Hslot. destruct (decide (f = [])) as [?|Hf]; [by left|].
    right. right. by apply loadAllFontsOnMount_loads. }
  unfold loadAllFontsOnMount at 1. rewrite Hfs, Hcf.
  rewrite (load_if_set_stable (normalFont _ _) r') by (apply Hstable; tauto).
  rewrite (load_if_set_stable (dialogueFont _ _) r')
    by (apply Hstable; tauto).
  rewrite (load_if_set_stable (italicFont _ _) r') by (apply Hstable; tauto).
  rewrite (load_if_set_stable (codeFont _ _) r') by (apply Hstable; tauto).
  apply load_all_stable. intros f Hf. apply Hstable. tauto.
Qed.

(** *** [getAllAvailableFonts] *)

Lemma existsb_name (fonts : list FontOption) (n : jsstring) :
  existsb (λ o, bool_decide (fo_name o = n)) fonts = true
  ↔ n ∈ fo_name <$> fonts.
Proof.
  rewrite existsb_exists, list_elem_of_fmap. split.
  - intros (o & Hin & Ho). exists o.
    apply bool_decide_eq_true in Ho. by rewrite list_elem_of_In.
  - intros (o & -> & Hin). exists o. rewrite <- list_elem_of_In.
    by rewrite bool_decide_true.
Qed.

Lemma push_custom_cases (fonts : list FontOption) (n : jsstring) :
  (n ∈ fo_name <$> fonts ∧ push_custom fonts n = fonts) ∨
  ((n ∉ fo_name <$> fonts) ∧
   push_custom fonts n = fonts ++ [mkFontOption n (lit "custom") (Some true)]).
Proof.
  unfold push_custom. destruct (existsb _ fonts) eqn:Hex.
  - left. split; [|done]. by apply existsb_name.
  - right. split; [|done]. intros Hin. apply existsb_name in Hin. congruence.
Qed.

Lemma fold_push_custom (fonts : list FontOption) (cs : list jsstring) :
  let result := foldl push_custom fonts cs in
  fonts `prefix_of` result ∧
  (NoDup (fo_name <$> fonts) → NoDup (fo_name <$> result)) ∧
  (∀ n, n ∈ fo_name <$> result ↔ n ∈ fo_name <$> fonts ∨ n ∈ cs) ∧
  (∀ o, o ∈ result →
        o ∈ fonts ∨
        (fo_category o = lit "custom" ∧ fo_isCustom o = Some true ∧
         fo_name o ∈ cs ∧ fo_name o ∉ fo_name <$> fonts)).
Proof.
  revert fonts. induction cs as [|c cs IH]; intros fonts result; subst result.
  - cbn [foldl]. split_and!; [done|done| |by left].
    intros n. rewrite elem_of_nil. tauto.
  - cbn [foldl].
    destruct (IH (push_custom fonts c)) as (Hpre & Hnodup & Hnames & Hcustom).
    destruct (push_custom_cases fonts c) as [[Hin Heq]|[Hnew Heq]];
      rewrite Heq in Hpre, Hnodup, Hnames, Hcustom; rewrite Heq.
    + split_and!; [done|done| |].
      * intros n. rewrite Hnames, elem_of_cons. split; [tauto|].
        intros [?|[->|?]]; tauto.
      * intros o Ho. destruct (Hcustom o Ho) as [?|(?&?&?&?)]; [by left|].
        right. split_and!; [done|done| |done]. by right.
    + split_and!.
      * etrans; [|exact Hpre]. by apply prefix_app_r.
      * intros Hfonts. apply Hnodup. rewrite fmap_app. apply NoDup_app.
        split_and!; [done| |apply NoDup_singleton].
        intros n Hn ->%list_elem_of_singleton. done.
      * intros n. rewrite Hnames, fmap_app, elem_of_app, elem_of_cons.
        cbn. rewrite list_elem_of_singleton. tauto.
      * intros o Ho. destruct (Hcustom o Ho) as [Hold|(Hc1 & Hc2 & Hc3 & Hc4)].
        -- apply elem_of_app in Hold as [?|Hnewo]; [by left|].
           apply list_elem_of_singleton in Hnewo as ->. right. cbn.
           split_and!; [done|done|left|done].
        -- right. split_and!; [done|done|by right|].
           intros Hin. apply Hc4. rewrite fmap_app. apply elem_of_app.
           by left.
Qed.

(** X25.  [getAllAvailableFonts] returns the popular fonts, in their order,
    followed by custom entries; no name occurs twice; a name occurs exactly
    when it is a popular name or one of the custom fonts; and every entry
    beyond the popular ones is flagged custom and has a name that is a
    custom font and not a popular name. *)
Theorem getAllAvailableFonts_names (customFonts : list jsstring) :
  let fonts := getAllAvailableFonts customFonts in
  POPULAR_GOOGLE_FONTS `prefix_of` fonts ∧
  NoDup (fo_name <$> fonts) ∧
  (∀ n, n ∈ fo_name <$> fonts
        ↔ n ∈ fo_name <$> POPULAR_GOOGLE_FONTS ∨ n ∈ customFonts) ∧
  (∀ o, o ∈ fonts →
        o ∈ POPULAR_GOOGLE_FONTS ∨
        (fo_category o = lit "custom" ∧ fo_isCustom o = Some true ∧
         fo_name o ∈ customFonts ∧
         fo_name o ∉ fo_name <$> POPULAR_GOOGLE_FONTS)).
Proof.
  intros fonts. subst fonts. unfold getAllAvailableFonts.
  destruct (fold_push_custom POPULAR_GOOGLE_FONTS customFonts)
    as (Hpre & Hnodup & Hnames & Hcustom).
  split_and!; [done| |done|done].
  apply Hnodup. apply (bool_decide_unpack _). by vm_compute.
Qed.
End FontStoreProperties.

(** * The persona part of the prompt framework *)

Lemma append_same_prefix (s t : string) : s +:+ t = s → t = EmptyString.
Proof.
  induction s as [|a s IH]; [done|].
  change (String a s +:+ t) with (String a (s +:+ t)).
  intros [= Heq]. by apply IH.
Qed.

Lemma append_empty (s : string) : s +:+ EmptyString = s.
Proof.
  induction s as [|a s IH]; [done|].
  change (String a s +:+ EmptyString) with (String a (s +:+ EmptyString)).
  by rewrite IH.
Qed.

Lemma personaSection_not_empty language persona username :
  personaSection language persona username ≠ EmptyString.
Proof. by destruct language. Qed.

(** X26.  [buildPromptFramework] only ever appends to the assembled system
    message, and it returns the message as assembled exactly when there is
    no persona or the persona has an empty description. *)
Theorem finalSystemMessage_appends language persona username systemMessage :
  (∃ suffix,
     finalSystemMessage language persona username systemMessage
       = systemMessage +:+ suffix) ∧
  (finalSystemMessage language persona username systemMessage = systemMessage
   ↔ persona = None
     ∨ ∃ p, persona = Some p ∧ persona_description p = EmptyString).
Proof.
  unfold finalSystemMessage. destruct persona as [p|].
  - destruct (truthy_string (persona_description p)) eqn:Hdesc.
    + split; [by eexists|]. apply truthy_string_true in Hdesc. split.
      * intros Heq%append_same_prefix.
        by apply personaSection_not_empty in Heq.
      * intros [?|(p' & [= <-] & ?)]; done.
    + apply truthy_string_false in Hdesc. split.
      * exists EmptyString. symmetry. apply append_empty.
      * split; [|done]. intros _. right. by exists p.
  - split; [|split; [by left|done]].
    exists EmptyString. symmetry. apply append_empty.
Qed.

(** X27.  When a character is mapped to a non-empty id that no persona carries,
    the prompt framework gets no persona: nothing is appended to the system
    message and the caller's user name is used, even when a default persona
    with a description exists. *)
Theorem dangling_mapping_injects_nothing (c i : string) (w : World Persona)
    language username systemMessage :
  characterEntityMap (eval getEntitySettings w) !! c = Some i →
  i ≠ EmptyString →
  (∀ p, p ∈ entityFile w → ent_id p ≠ i) →
  finalSystemMessage language (eval (getPersonaForCharacter c) w) username
    systemMessage = systemMessage ∧
  effectiveUsername (eval (getPersonaForCharacter c) w) username = username.
Proof.
  intros Hmap Hi Hmiss.
  assert (eval (getPersonaForCharacter c) w = None) as ->.
  { unfold getPersonaForCharacter.
    rewrite (getEntityForCharacter_mapped c i) by done.
    by apply getEntityById_missing. }
  done.
Qed.

(** ** Closed instances of the further properties *)

Lemma save_keeps_other_lookups_witness :
  "a" ≠ ent_id persona_c ∧
  eval (getPersonaById "a") (exec (savePersona sample_env persona_c) world_ab)
    = Some (mkPersona "a" "Ann" EmptyString None false "t0" "t0").
Proof.
  assert (Hne : "a" ≠ ent_id persona_c) by done.
  split; [exact Hne|].
  exact (save_keeps_other_lookups sample_env persona_c "a" world_ab Hne).
Defined.

Lemma delete_self_healing_witness :
  entityFile (exec (deletePersona "a") world_ab) ≠ [] ∧
  count_default (entityFile world_ab) ≤ 1 ∧
  count_default (entityFile (exec (deletePersona "a") world_ab)) = 1.
Proof.
  assert (Hne : entityFile (exec (deletePersona "a") world_ab) ≠ []) by done.
  assert (Hle : count_default (entityFile world_ab) ≤ 1) by (vm_compute; lia).
  destruct (delete_self_healing "a" world_ab Hne) as [_ Hone].
  split_and!; [exact Hne|exact Hle|exact (Hone Hle)].
Defined.

Lemma world_linked_resolves : references_resolve world_linked.
Proof.
  split.
  - intros i [= <-]. exists persona_a. split; [left|done].
  - intros c i Hc. cbn in Hc.
    apply lookup_singleton_Some in Hc as [_ <-].
    exists persona_b. split; [right; left|done].
Defined.

Lemma save_delete_keep_references_witness :
  references_resolve world_linked ∧
  references_resolve (exec (savePersona sample_env persona_c) world_linked) ∧
  references_resolve (exec (deletePersona "b") world_linked).
Proof.
  split; [exact world_linked_resolves|].
  exact (save_delete_keep_references sample_env persona_c "b" world_linked
           world_linked_resolves).
Defined.

Lemma setDefault_existing_witness :
  NoDup (ent_id <$> entityFile world_ab) ∧
  "b" ∈ ent_id <$> entityFile world_ab ∧
  count_default (entityFile (exec (setDefaultPersona sample_env "b") world_ab))
    = 1.
Proof.
  assert (Hnodup : NoDup (ent_id <$> entityFile world_ab)).
  { apply (bool_decide_unpack _). by vm_compute. }
  assert (Hin : "b" ∈ ent_id <$> entityFile world_ab) by (right; left).
  destruct (setDefault_existing sample_env "b" world_ab Hnodup Hin) as [Hone _].
  split_and!; [exact Hnodup|exact Hin|exact Hone].
Defined.


Lemma initializeDefault_cases_witness :
  entityFile
    (exec (initializeDefaultEntity sample_env "me") (empty_world (E := Persona)))
  = [mkPersona "persona_default_1767225600000" "me" EmptyString None true
       "2026-01-01T00:00:00.000Z" "2026-01-01T00:00:00.000Z"].
Proof.
  destruct (initializeDefault_cases sample_env "me"
              (empty_world (E := Persona))) as [Hempty _].
  destruct (Hempty eq_refl) as (stored & Hret & _ & Hfile & _).
  injection Hret as <-. exact Hfile.
Defined.

Lemma createNew_appends_witness :
  ent_name (eval (createNewPersonal sample_env "Ann") empty_world) = "Ann" ∧
  ent_isDefault (eval (createNewPersonal sample_env "Ann") empty_world)
    = false.
Proof.
  destruct (createNew_appends (E := Personal) sample_env "Ann" empty_world)
    as (Hname & Hdef & _).
  split; [exact Hname|exact Hdef].
Defined.

Lemma run_ops_single_default_witness :
  single_default (entityFile (empty_world (E := Persona))) ∧
  single_default (entityFile (run_ops sample_env sample_ops empty_world)).
Proof.
  assert (Hempty : single_default (entityFile (empty_world (E := Persona)))).
  { split; [apply NoDup_nil_2|]. vm_compute. lia. }
  split; [exact Hempty|].
  exact (run_ops_single_default sample_env sample_ops empty_world Hempty).
Defined.

Lemma dangling_mapping_injects_nothing_witness :
  eval getDefaultPersona world_dangling = Some persona_d ∧
  finalSystemMessage en (eval (getPersonaForCharacter "char1") world_dangling)
    (Some "guest") "You are a bard." = "You are a bard." ∧
  finalSystemMessage en (eval getDefaultPersona world_dangling)
    (Some "guest") "You are a bard." ≠ "You are a bard.".
Proof.
  assert (Hmap : characterEntityMap (eval getEntitySettings world_dangling)
                   !! "char1" = Some "ghost") by (by vm_compute).
  assert (Hne : "ghost" ≠ EmptyString) by done.
  assert (Hmiss : ∀ p, p ∈ entityFile world_dangling → ent_id p ≠ "ghost").
  { intros p Hp. simpl in Hp.
    apply elem_of_cons in Hp as [->|Hp]; [done|].
    by apply not_elem_of_nil in Hp. }
  destruct (dangling_mapping_injects_nothing "char1" "ghost" world_dangling
              en (Some "guest") "You are a bard." Hmap Hne Hmiss) as [Hmsg _].
  split_and!; [reflexivity|exact Hmsg|by vm_compute].
Defined.

Lemma sample_runtime_linked :
  MessageFontStore.loaded_fonts_linked sample_runtime.
Proof. intros f Hf. by apply not_elem_of_empty in Hf. Defined.

Lemma run_store_ops_linked_witness :
  MessageFontStore.loaded_fonts_linked sample_runtime ∧
  MessageFontStore.loaded_fonts_linked
    (MessageFontStore.run_store_ops (λ n, n) sample_store_ops sample_runtime).
Proof.
  split; [exact sample_runtime_linked|].
  exact (run_store_ops_linked (λ n, n) sample_store_ops sample_runtime
           sample_runtime_linked).
Defined.

Lemma same_formatted_name_one_link_witness :
  MessageFontStore.replace_whitespace font_fira
    = MessageFontStore.replace_whitespace font_fira_wide ∧
  font_fira ≠ font_fira_wide ∧
  MessageFontStore.document _
    (MessageFontStore.loadGoogleFont _ font_fira_wide
       (MessageFontStore.loadGoogleFont _ font_fira sample_runtime))
  = MessageFontStore.document _
      (MessageFontStore.loadGoogleFont _ font_fira sample_runtime).
Proof.
  assert (Hfmt : MessageFontStore.replace_whitespace font_fira
                 = MessageFontStore.replace_whitespace font_fira_wide)
    by reflexivity.
  split_and!; [exact Hfmt|done|].
  exact (same_formatted_name_one_link font_fira font_fira_wide sample_runtime
           sample_runtime_linked Hfmt).
Defined.

Lemma addCustomFont_keeps_list_clean_witness :
  MessageFontStore.customFonts _
    (MessageFontStore.store _
       (MessageFontStore.addCustomFont font_lora_padded sample_runtime))
  = [font_lora] ∧
  font_lora ∈
    MessageFontStore.customFonts _
      (MessageFontStore.store _
         (MessageFontStore.addCustomFont font_lora_padded sample_runtime)).
Proof.
  assert (Hnodup : NoDup (MessageFontStore.customFonts _
                            (MessageFontStore.store _ sample_runtime)))
    by apply NoDup_nil_2.
  assert (Hclean : Forall (λ x, x ≠ [] ∧ MessageFontStore.trim x = x)
                     (MessageFontStore.customFonts _
                        (MessageFontStore.store _ sample_runtime)))
    by constructor.
  destruct (addCustomFont_keeps_list_clean font_lora_padded sample_runtime
              Hnodup Hclean) as (_ & _ & Hin).
  split; [reflexivity|]. by apply Hin.
Defined.

Lemma addCustomFont_idempotent_witness :
  MessageFontStore.trim font_lora = MessageFontStore.trim font_lora_padded ∧
  MessageFontStore.addCustomFont font_lora_padded
    (MessageFontStore.addCustomFont font_lora sample_runtime)
  = MessageFontStore.addCustomFont font_lora sample_runtime.
Proof.
  assert (Htrim : MessageFontStore.trim font_lora
                  = MessageFontStore.trim font_lora_padded) by reflexivity.
  split; [exact Htrim|].
  exact (addCustomFont_idempotent font_lora font_lora_padded sample_runtime
           Htrim).
Defined.

Lemma removeCustomFont_after_add_witness :
  (MessageFontStore.trim font_lora_padded
     ∉ MessageFontStore.customFonts _ (MessageFontStore.store _ sample_runtime)) ∧
  MessageFontStore.customFonts _
    (MessageFontStore.store _
       (MessageFontStore.removeCustomFont
          (MessageFontStore.trim font_lora_padded)
          (MessageFontStore.addCustomFont font_lora_padded sample_runtime)))
  = [].
Proof.
  assert (Hfresh : MessageFontStore.trim font_lora_padded
            ∉ MessageFontStore.customFonts _
                (MessageFontStore.store _ sample_runtime))
    by apply not_elem_of_nil.
  destruct (removeCustomFont_after_add font_lora_padded sample_runtime Hfresh)
    as [Hlist _].
  split; [exact Hfresh|exact Hlist].
Defined.

Lemma updateFontSettings_loads_witness :
  MessageFontStore.window_defined _ sample_runtime = true ∧
  font_lora ≠ [] ∧
  font_lora ∈
    MessageFontStore.loadedFonts _
      (MessageFontStore.store _
         (MessageFontStore.updateFontSettings update_normal_lora
            sample_runtime)).
Proof.
  assert (Hwin : MessageFontStore.window_defined _ sample_runtime = true)
    by reflexivity.
  assert (Hf : font_lora ≠ []) by done.
  destruct (updateFontSettings_loads update_normal_lora sample_runtime
              font_lora Hwin Hf) as [Hin _].
  { left. split; [reflexivity|done]. }
  split_and!; [exact Hwin|exact Hf|exact Hin].
Defined.

Lemma loadAllFontsOnMount_loads_all_witness :
  MessageFontStore.window_defined _
    (MessageFontStore.set_customFonts [font_fira] sample_runtime) = true ∧
  font_fira ∈
    MessageFontStore.loadedFonts _
      (MessageFontStore.store _
         (MessageFontStore.loadAllFontsOnMount
            (MessageFontStore.set_customFonts [font_fira] sample_runtime))).
Proof.
  assert (Hwin : MessageFontStore.window_defined _
            (MessageFontStore.set_customFonts [font_fira] sample_runtime)
            = true) by reflexivity.
  destruct (loadAllFontsOnMount_loads_all
              (MessageFontStore.set_customFonts [font_fira] sample_runtime)
              Hwin) as [Hall _].
  split; [exact Hwin|]. apply Hall; [done|].
  do 4 right. left.
Defined.
